(** * The model catalog of the oms web-service

    A shallow embedding of [ModelCatalog] (RefreshSqlite, Close and the
    index look-ups) together with the properties stated for it.

    The Go code talks to three collaborators which are not part of the
    modelled source: the file system ([isDirExist], [filepath.Walk],
    [filepath.Dir], [filepath.Ext]), the database layer ([db.Open],
    [db.OpenmppSchemaVersion], [db.GetModelList], [db.GetLanguages],
    [Close] of a connection) and the logger.  Their answers are collected
    in the record [Env]; every call made to them is recorded, in order, in
    the [trace] of the [World].  The mutex of the catalog is not modelled:
    each operation is taken as one sequential call. *)

From Stdlib Require Import String Ascii List ZArith Bool Lia.
From Stdlib Require Import Sorting.Sorted Sorting.Permutation.
Import ListNotations.
Open Scope string_scope.
Open Scope list_scope.

#[local] Set Warnings "-register-all".

(** ** Go errors *)

(** A Go [error] value; [nil] is [None] of [option error].
    [SkipDir] is the sentinel [filepath.SkipDir]. *)
Inductive error : Type :=
| SkipDir : error
| errorString (msg : string) : error.

Definition errorsNew (msg : string) : error := errorString msg.

(** [err.Error()] *)
Definition Error (e : error) : string :=
  match e with
  | SkipDir => "skip this directory"
  | errorString msg => msg
  end.

Definition isNil {A : Type} (e : option A) : bool :=
  match e with None => true | Some _ => false end.

Definition isSkipDir (e : error) : bool :=
  match e with SkipDir => true | errorString _ => false end.

(** ** path/filepath *)

Module filepath.

(** What [Lstat] and [readDirNames] report for a path:
    a plain file, a name whose [Lstat] fails, a directory with its
    entries (in the order [readDirNames] returns them), or a directory
    whose entries cannot be read.  The failures carry the message of
    the operating-system error. *)
Inductive FsNode : Type :=
| File : FsNode
| NoStat (msg : string) : FsNode
| Dir (entries : list (string * FsNode)) : FsNode
| DirErr (msg : string) : FsNode.

Definition IsDir (info : FsNode) : bool :=
  match info with
  | Dir _ | DirErr _ => true
  | File | NoStat _ => false
  end.

(** [filepath.Join] of a clean directory path and an entry name. *)
Definition Join (path name : string) : string :=
  (path ++ "/" ++ name)%string.

(** [WalkFunc]: the callback gets the path and the error met there and
    answers with an error; [S] is the state its closure captures. *)
Definition WalkFunc (S : Type) : Type :=
  string -> option error -> S -> option error * S.

(** The loop of [walk] over the names of a directory; [walkInto] is the
    recursive call of [walk]. *)
Fixpoint walkNames {S : Type}
         (walkInto : string -> FsNode -> S -> option error * S)
         (walkFn : WalkFunc S) (path : string)
         (names : list (string * FsNode)) (s : S) : option error * S :=
  match names with
  | [] => (None, s)
  | (name, fileInfo) :: rest =>
      let filename := Join path name in
      match fileInfo with
      | NoStat msg =>
          let '(err, s') := walkFn filename (Some (errorString msg)) s in
          match err with
          | None => walkNames walkInto walkFn path rest s'
          | Some e =>
              if isSkipDir e
              then walkNames walkInto walkFn path rest s'
              else (Some e, s')
          end
      | _ =>
          let '(err, s') := walkInto filename fileInfo s in
          match err with
          | None => walkNames walkInto walkFn path rest s'
          | Some e =>
              if negb (IsDir fileInfo) || negb (isSkipDir e)
              then (Some e, s')
              else walkNames walkInto walkFn path rest s'
          end
      end
  end.

(** The recursive [walk] of the Go standard library. *)
Fixpoint walk {S : Type} (path : string) (info : FsNode)
         (walkFn : WalkFunc S) (s : S) {struct info} : option error * S :=
  match info with
  | File => walkFn path None s
  | NoStat msg => walkFn path (Some (errorString msg)) s
  | DirErr msg => walkFn path (Some (errorString msg)) s
  | Dir entries =>
      let '(err1, s1) := walkFn path None s in
      match err1 with
      | Some _ => (err1, s1)
      | None =>
          walkNames (fun filename fileInfo => walk filename fileInfo walkFn)
                    walkFn path entries s1
      end
  end.

(** [filepath.Walk]: [lstat] is what [os.Lstat] finds at [root]. *)
Definition Walk {S : Type} (lstat : string -> FsNode) (root : string)
           (walkFn : WalkFunc S) (s : S) : option error * S :=
  let '(err, s') := walk root (lstat root) walkFn s in
  match err with
  | Some e => if isSkipDir e then (None, s') else (Some e, s')
  | None => (None, s')
  end.

(** The first failure among the entries of the directory [path]. *)
Fixpoint firstFailureIn (failure : string -> FsNode -> option (string * string))
         (path : string) (names : list (string * FsNode))
  : option (string * string) :=
  match names with
  | [] => None
  | (name, fileInfo) :: rest =>
      match failure (Join path name) fileInfo with
      | Some f => Some f
      | None => firstFailureIn failure path rest
      end
  end.

(** The first path, in the order of the walk, at which [Lstat] or the
    reading of a directory fails, with the message of the failure. *)
Fixpoint firstFailure (path : string) (info : FsNode) : option (string * string) :=
  match info with
  | File => None
  | NoStat msg => Some (path, msg)
  | DirErr msg => Some (path, msg)
  | Dir entries =>
      firstFailureIn (fun filename fileInfo => firstFailure filename fileInfo)
                     path entries
  end.

End filepath.

(** ** sort.Strings *)

Module sort.

Fixpoint insert (x : string) (l : list string) : list string :=
  match l with
  | [] => [x]
  | y :: l' => if (x <=? y)%string then x :: l else y :: insert x l'
  end.

(** [sort.Strings]: ascending byte-wise order.  Equal strings are
    indistinguishable, so every sorting algorithm gives this result. *)
Fixpoint Strings (l : list string) : list string :=
  match l with
  | [] => []
  | x :: l' => insert x (Strings l')
  end.

End sort.

(** ** The database layer, as far as the catalog uses it *)

Module db.

(** [db.ModelDicRow]: a row of model_dic. *)
Record ModelDicRow : Type := {
  ModelId : Z;
  Name : string;
  Digest : string;
  DefaultLangCode : string
}.

(** [db.LangLstRow]: a row of lang_lst. *)
Record LangLstRow : Type := {
  LangId : Z;
  LangCode : string;
  LangName : string
}.

(** [db.LangMeta] *)
Record LangMeta : Type := { Lang : list LangLstRow }.

(** [db.ModelMeta], of which only the model_dic row is filled here. *)
Record ModelMeta : Type := { Model : ModelDicRow }.

(** A connection handle [*sql.DB]: [connId] tells apart the handles
    returned by different calls of [db.Open]. *)
Record Conn : Type := { connId : nat; connPath : string }.

End db.

(** ** Observable events *)

Inductive Event : Type :=
| EvLog (msg : string)
| EvOpen (fp : string) (res : option db.Conn)
| EvSchemaVersion (dbc : db.Conn)
| EvGetModelList (dbc : db.Conn)
| EvGetLanguages (dbc : db.Conn)
| EvClose (dbc : db.Conn) (res : option error).

(** ** The collaborators *)

Record Env : Type := {
  (** [isDirExist]: [nil] if the path is an existing directory *)
  isDirExist : string -> option error;
  (** what [os.Lstat] and directory reads find under a path *)
  lstat : string -> filepath.FsNode;
  (** [filepath.Dir] *)
  pathDir : string -> string;
  (** [strings.EqualFold(filepath.Ext(src), ".sqlite")] *)
  isSqliteExt : string -> bool;
  (** [db.MinSchemaVersion] *)
  MinSchemaVersion : Z;
  (** error of [db.Open] on a file *)
  dbOpen : string -> option error;
  (** [db.OpenmppSchemaVersion] on the connection to a file *)
  dbOpenmppSchemaVersion : string -> Z * option error;
  (** [db.GetModelList] on the connection to a file; the flag tells
      whether that connection has been closed before the call *)
  dbGetModelList : string -> bool -> list db.ModelDicRow * option error;
  (** [db.GetLanguages], likewise; a [nil] pointer is [None] *)
  dbGetLanguages : string -> bool -> option db.LangMeta * option error;
  (** result of [Close] on a connection, given all that happened before *)
  dbClose : list Event -> db.Conn -> option error
}.

(** ** The world and its monad *)

Record World : Type := {
  trace : list Event;   (* oldest event first *)
  nextConn : nat        (* number of connections opened so far *)
}.

Definition M (A : Type) : Type := World -> A * World.

Definition ret {A : Type} (a : A) : M A := fun w => (a, w).

Definition bind {A B : Type} (m : M A) (k : A -> M B) : M B :=
  fun w => let '(a, w') := m w in k a w'.

Declare Scope go_scope.
Delimit Scope go_scope with go.
Notation "x <- m ;; k" := (bind m (fun x => k))
  (at level 61, m at next level, right associativity) : go_scope.
Notation "m ;; k" := (bind m (fun _ => k))
  (at level 61, right associativity) : go_scope.
Open Scope go_scope.

Definition emit (e : Event) : M unit :=
  fun w => (tt, {| trace := trace w ++ [e]; nextConn := nextConn w |}).

(** [omppLog.Log]: the message parts are joined. *)
Definition Log (parts : list string) : M unit :=
  emit (EvLog (String.concat "" parts)).

(** ** The catalog *)

(** [modelDef]: one entry of the catalog. *)
Record modelDef : Type := {
  dbConn : db.Conn;
  binDir : string;
  logDir : string;
  isLogDir : bool;
  isMetaFull : bool;
  meta : db.ModelMeta;
  langCodes : list string;
  langMeta : db.LangMeta;
  matcher : list string       (* the tags given to language.NewMatcher *)
}.

(** [ModelCatalog], without its mutex. *)
Record ModelCatalog : Type := {
  modelDir : string;
  isDirEnabled : bool;
  modelLogDir : string;
  isLogDirEnabled : bool;
  modelLst : list modelDef
}.

Definition digestOf (m : modelDef) : string := db.Digest (db.Model (meta m)).
Definition nameOf (m : modelDef) : string := db.Name (db.Model (meta m)).

(** ** RefreshSqlite, Close and the look-ups *)

Section Catalog.

Variable env : Env.

(** The callback given to [filepath.Walk]; its closure captures the
    list of paths and writes to the log. *)
Definition walkFn : filepath.WalkFunc (list string * World) :=
  fun src err '(pathLst, w) =>
    match err with
    | Some e =>
        let w' :=
          if negb (isSkipDir e)
          then snd (Log ["Error at refresh model catalog, path: "; src; " : "; Error e] w)
          else w in
        (Some e, (pathLst, w'))
    | None =>
        if isSqliteExt env src
        then (None, (pathLst ++ [src], w))
        else (None, (pathLst, w))
    end.

(** Lines 105-117: the language codes of a model, its default language
    put in front; [lt] are the tags made of the same codes. *)
Definition langLoop (ls : db.LangMeta) (defaultLangCode : string)
  : list string * list string :=
  fold_left
    (fun (acc : list string * list string) (l : db.LangLstRow) =>
       let '(ml, lt) := acc in
       if (db.LangCode l =? defaultLangCode)%string
       then ([db.LangCode l] ++ ml, [db.LangCode l] ++ lt)
       else (ml ++ [db.LangCode l], lt ++ [db.LangCode l]))
    (db.Lang ls) ([], []).

Definition newModelDef (dbc : db.Conn) (d mLogDir : string) (isLogDir : bool)
           (ls : db.LangMeta) (row : db.ModelDicRow) : modelDef :=
  let '(ml, lt) := langLoop ls (db.DefaultLangCode row) in
  {| dbConn := dbc;
     binDir := d;
     logDir := mLogDir;
     isLogDir := isLogDir;
     isMetaFull := false;
     meta := {| db.Model := row |};
     langCodes := ml;
     langMeta := ls;
     matcher := lt |}.

(** Lines 94-130, the loop labelled [dicLoop]. *)
Fixpoint dicLoop (dbc : db.Conn) (d mLogDir : string) (isLogDir : bool)
         (ls : db.LangMeta) (dicLst : list db.ModelDicRow)
         (mLst : list modelDef) : M (list modelDef) :=
  match dicLst with
  | [] => ret mLst
  | row :: rest =>
      if existsb (fun m => (db.Digest row =? digestOf m)%string) mLst
      then
        Log ["Skip: model already exist in other database: ";
             db.Name row; " "; db.Digest row] ;;
        dicLoop dbc d mLogDir isLogDir ls rest mLst
      else
        dicLoop dbc d mLogDir isLogDir ls rest
                (mLst ++ [newModelDef dbc d mLogDir isLogDir ls row])
  end.

(** [dbc.Close()], its result recorded. *)
Definition connClose (dbc : db.Conn) : M (option error) :=
  fun w =>
    let r := dbClose env (trace w) dbc in
    (r, {| trace := trace w ++ [EvClose dbc r]; nextConn := nextConn w |}).

(** [db.Open] of the sqlite file [fp]. *)
Definition Open (fp : string) : M (option db.Conn * option error) :=
  fun w =>
    match dbOpen env fp with
    | Some e =>
        (None, Some e,
         {| trace := trace w ++ [EvOpen fp None]; nextConn := nextConn w |})
    | None =>
        let dbc := {| db.connId := nextConn w; db.connPath := fp |} in
        (Some dbc, None,
         {| trace := trace w ++ [EvOpen fp (Some dbc)];
            nextConn := S (nextConn w) |})
    end.

(** Lines 64-130: the body of the loop over the sorted paths. *)
Definition pathBody (mLogDir : string) (isLogDir : bool) (fp : string)
           (mLst : list modelDef) : M (list modelDef) :=
  r <- Open fp ;;
  match r with
  | (_, Some err) =>
      Log ["Error: "; fp; " : "; Error err] ;;
      ret mLst                                          (* continue *)
  | (None, None) => ret mLst                            (* not returned by Open *)
  | (Some dbc, None) =>
      emit (EvSchemaVersion dbc) ;;
      let '(nv, err) := dbOpenmppSchemaVersion env fp in
      closed <- (if negb (isNil err) || (nv <? MinSchemaVersion env)%Z
                 then
                   Log ["Error: invalid database, likely not an openM++ database"; fp] ;;
                   connClose dbc ;;
                   ret true
                 else ret false) ;;
      let d := pathDir env fp in
      emit (EvGetModelList dbc) ;;
      let '(dicLst, err) := dbGetModelList env fp closed in
      if negb (isNil err) || (Z.of_nat (length dicLst) <=? 0)%Z
      then
        Log ["Warning: empty database, no models found: "; fp] ;;
        connClose dbc ;;
        ret mLst                                        (* continue *)
      else
        emit (EvGetLanguages dbc) ;;
        let '(ls, err) := dbGetLanguages env fp closed in
        match ls, err with
        | Some ls, None =>
            dicLoop dbc d mLogDir isLogDir ls dicLst mLst
        | _, _ =>
            Log ["Warning: no languages found in database: "; fp] ;;
            connClose dbc ;;
            ret mLst                                    (* continue *)
        end
  end.

(** Lines 62-131. *)
Fixpoint pathLoop (mLogDir : string) (isLogDir : bool)
         (pathLst : list string) (mLst : list modelDef) : M (list modelDef) :=
  match pathLst with
  | [] => ret mLst
  | fp :: rest =>
      mLst' <- pathBody mLogDir isLogDir fp mLst ;;
      pathLoop mLogDir isLogDir rest mLst'
  end.

(** Lines 144-148: close the connections of the entries in use so far. *)
Fixpoint closeLoop (lst : list modelDef) : M unit :=
  match lst with
  | [] => ret tt
  | m :: rest =>
      err <- connClose (dbConn m) ;;
      match err with
      | Some e => Log [("Error: close db connection error: " ++ Error e)%string]
      | None => ret tt
      end ;;
      closeLoop rest
  end.

(** Lines 25-31 and 34-37: a directory argument is usable. *)
Definition dirUsable (dir : string) : bool :=
  let isDir := negb (dir =? "")%string && negb (dir =? ".")%string in
  if isDir then isNil (isDirExist env dir) else isDir.

(** Lines 39-57: the sorted list of sqlite files, or the walk error. *)
Definition listSqlite (mDir : string) : M (option error * list string) :=
  fun w =>
    let '(err, (pathLst, w')) :=
      filepath.Walk (lstat env) mDir walkFn ([], w) in
    (err, pathLst, w').

Definition RefreshSqlite (mc : ModelCatalog) (mDir mLogDir : string)
  : M (option error * ModelCatalog) :=
  let isDir := dirUsable mDir in
  if negb isDir
  then
    ret (Some (errorsNew ("Error: model directory not exist or not accesible: " ++ mDir)%string), mc)
  else
    let isLogDir := dirUsable mLogDir in
    r <- listSqlite mDir ;;
    let '(err, pathLst) := r in
    match err with
    | Some e =>
        Log ["Error: fail to list model directory: "; Error e] ;;
        ret (Some (errorsNew "Error: fail to list model directory"), mc)
    | None =>
        let pathLst := sort.Strings pathLst in
        mLst <- pathLoop mLogDir isLogDir pathLst [] ;;
        closeLoop (modelLst mc) ;;
        ret (None,
             {| modelDir := mDir;
                isDirEnabled := isDir;
                modelLogDir := mLogDir;
                isLogDirEnabled := isLogDir;
                modelLst := mLst |})
    end.

(** Lines 161-170 of [Close]: the loop with [firstErr]. *)
Fixpoint closeFirstErr (lst : list modelDef) (firstErr : option error)
  : M (option error) :=
  match lst with
  | [] => ret firstErr
  | m :: rest =>
      err <- connClose (dbConn m) ;;
      match err with
      | Some e =>
          Log [("Error: close db connection error: " ++ Error e)%string] ;;
          closeFirstErr rest
            (match firstErr with None => Some e | Some _ => firstErr end)
      | None => closeFirstErr rest firstErr
      end
  end.

Definition Close (mc : ModelCatalog) : M (option error * ModelCatalog) :=
  firstErr <- closeFirstErr (modelLst mc) None ;;
  ret (firstErr,
       {| modelDir := modelDir mc;
          isDirEnabled := isDirEnabled mc;
          modelLogDir := modelLogDir mc;
          isLogDirEnabled := isLogDirEnabled mc;
          modelLst := [] |}).

End Catalog.

(** [indexByDigestOrName]: one pass over the entries, [k] the current
    index and [n] the index of the first name found ([-1]: none yet). *)
Fixpoint indexLoop (dn : string) (lst : list modelDef) (k n : Z) : Z * bool :=
  match lst with
  | [] => if (n >=? 0)%Z then (n, true) else (0%Z, false)
  | m :: rest =>
      if (digestOf m =? dn)%string then (k, true)
      else
        let n := if (n <? 0)%Z && (nameOf m =? dn)%string then k else n in
        indexLoop dn rest (k + 1)%Z n
  end.

Definition indexByDigestOrName (mc : ModelCatalog) (dn : string) : Z * bool :=
  indexLoop dn (modelLst mc) 0%Z (-1)%Z.

(** [indexByDigest] *)
Fixpoint indexByDigestLoop (digest : string) (lst : list modelDef) (k : Z) : Z * bool :=
  match lst with
  | [] => (0%Z, false)
  | m :: rest =>
      if (digestOf m =? digest)%string then (k, true)
      else indexByDigestLoop digest rest (k + 1)%Z
  end.

Definition indexByDigest (mc : ModelCatalog) (digest : string) : Z * bool :=
  indexByDigestLoop digest (modelLst mc) 0%Z.

(** ** A concrete installation, to run the model on *)

Module Demo.

Fixpoint hasSlash (s : string) : bool :=
  match s with
  | EmptyString => false
  | String c s' => (c =? "/")%char || hasSlash s'
  end.

(** [filepath.Ext] for slash-separated paths. *)
Fixpoint Ext (s : string) : string :=
  match s with
  | EmptyString => ""
  | String c s' =>
      match Ext s' with
      | EmptyString => if (c =? ".")%char && negb (hasSlash s') then s else ""
      | e => e
      end
  end.

(** [filepath.Dir] for clean slash-separated relative paths. *)
Fixpoint dirPrefix (s : string) : string :=
  match s with
  | EmptyString => ""
  | String c s' => if hasSlash s' then String c (dirPrefix s') else ""
  end.

Definition Dir (s : string) : string :=
  match dirPrefix s with EmptyString => "." | d => d end.

Definition toLower (c : ascii) : ascii :=
  let n := nat_of_ascii c in
  if (65 <=? n)%nat && (n <=? 90)%nat then ascii_of_nat (n + 32) else c.

Fixpoint lower (s : string) : string :=
  match s with
  | EmptyString => ""
  | String c s' => String (toLower c) (lower s')
  end.

Definition isSqlite (src : string) : bool := (lower (Ext src) =? ".sqlite")%string.

Definition row (id : Z) (name digest lang : string) : db.ModelDicRow :=
  {| db.ModelId := id; db.Name := name; db.Digest := digest;
     db.DefaultLangCode := lang |}.

Definition lang (id : Z) (code : string) : db.LangLstRow :=
  {| db.LangId := id; db.LangCode := code; db.LangName := code |}.

Definition enFrDe : db.LangMeta :=
  {| db.Lang := [lang 0 "en"; lang 1 "fr"; lang 2 "de"] |}.

Definition tree (root : string) : filepath.FsNode :=
  if (root =? "models")%string then
    filepath.Dir
      [ ("A", filepath.Dir [("model.sqlite", filepath.File)]);
        ("B", filepath.Dir [("model.SQLite", filepath.File)]);
        ("bad.sqlite", filepath.File);
        ("old.sqlite", filepath.File);
        ("readme.txt", filepath.File) ]
  else if (root =? "locked")%string then
    filepath.Dir
      [ ("A", filepath.Dir [("model.sqlite", filepath.File)]);
        ("sub", filepath.DirErr "open locked/sub: permission denied") ]
  else if (root =? "legacy")%string then
    filepath.Dir [ ("old.sqlite", filepath.File) ]
  else filepath.NoStat "no such file or directory".

Definition dirExist (dir : string) : option error :=
  if (dir =? "models")%string || (dir =? "locked")%string
     || (dir =? "legacy")%string || (dir =? "logs")%string
     || (dir =? ".")%string
  then None
  else Some (errorString "no such file or directory").

Definition open (fp : string) : option error :=
  if (fp =? "models/bad.sqlite")%string
  then Some (errorString "file is not a database") else None.

Definition schemaVersion (fp : string) : Z * option error :=
  if (fp =? "models/old.sqlite")%string || (fp =? "legacy/old.sqlite")%string
  then (0%Z, None) else (102%Z, None).

Definition modelList (fp : string) (closed : bool)
  : list db.ModelDicRow * option error :=
  if closed then ([], Some (errorString "sql: database is closed"))
  else if (fp =? "models/A/model.sqlite")%string
          || (fp =? "locked/A/model.sqlite")%string then
    ([row 1 "Road" "d-road" "fr"; row 2 "d-lake" "d-risk" "en"], None)
  else if (fp =? "models/B/model.SQLite")%string then
    ([row 1 "Road" "d-road" "en"; row 2 "Lake" "d-lake" "de"], None)
  else ([], None).

Definition languages (fp : string) (closed : bool)
  : option db.LangMeta * option error :=
  if closed then (None, Some (errorString "sql: database is closed"))
  else (Some enFrDe, None).

(** Closing the connection to store B fails, every other close succeeds. *)
Definition close (_ : list Event) (dbc : db.Conn) : option error :=
  if (db.connPath dbc =? "models/B/model.SQLite")%string
  then Some (errorString "disk I/O error") else None.

Definition env : Env :=
  {| isDirExist := dirExist;
     lstat := tree;
     pathDir := Dir;
     isSqliteExt := isSqlite;
     MinSchemaVersion := 100;
     dbOpen := open;
     dbOpenmppSchemaVersion := schemaVersion;
     dbGetModelList := modelList;
     dbGetLanguages := languages;
     dbClose := close |}.

Definition world0 : World := {| trace := []; nextConn := 0 |}.

Definition empty : ModelCatalog :=
  {| modelDir := ""; isDirEnabled := false;
     modelLogDir := ""; isLogDirEnabled := false; modelLst := [] |}.

Definition dummy : modelDef :=
  {| dbConn := {| db.connId := 0; db.connPath := "" |};
     binDir := ""; logDir := ""; isLogDir := false; isMetaFull := false;
     meta := {| db.Model := row 0 "" "" "" |};
     langCodes := []; langMeta := {| db.Lang := [] |}; matcher := [] |}.

(** The catalog after a first refresh over "models". *)
Definition afterRefresh : option error * ModelCatalog * World :=
  RefreshSqlite env empty "models" "logs" world0.

Definition installed : ModelCatalog := snd (fst afterRefresh).
Definition world1 : World := snd afterRefresh.

End Demo.

(** ** Vocabulary of the statements *)

Definition connEqb (c1 c2 : db.Conn) : bool :=
  (db.connId c1 =? db.connId c2)%nat && (db.connPath c1 =? db.connPath c2)%string.

(** The connections on which [Close] is called in a run of events. *)
Fixpoint closedConns (evs : list Event) : list db.Conn :=
  match evs with
  | [] => []
  | EvClose dbc _ :: rest => dbc :: closedConns rest
  | _ :: rest => closedConns rest
  end.

(** The first error returned by a [Close] in a run of events. *)
Fixpoint firstCloseError (evs : list Event) : option error :=
  match evs with
  | [] => None
  | EvClose _ (Some e) :: _ => Some e
  | _ :: rest => firstCloseError rest
  end.

(** The event is a read through the connection. *)
Definition readsFrom (dbc : db.Conn) (ev : Event) : bool :=
  match ev with
  | EvSchemaVersion c | EvGetModelList c | EvGetLanguages c => connEqb dbc c
  | _ => false
  end.

(** Some connection is read from after it was closed. *)
Fixpoint usedAfterClose (evs : list Event) : bool :=
  match evs with
  | [] => false
  | EvClose dbc _ :: rest => existsb (readsFrom dbc) rest || usedAfterClose rest
  | _ :: rest => usedAfterClose rest
  end.

(** Default language first, the other codes in their order. *)
Definition defaultFirst (defaultLangCode : string) (codes : list string) : list string :=
  filter (fun c => (c =? defaultLangCode)%string) codes
  ++ filter (fun c => negb (c =? defaultLangCode)%string) codes.

Definition storeCodes (ls : db.LangMeta) : list string :=
  map db.LangCode (db.Lang ls).

(** The store at [fp] opens, passes the schema check, and lists models
    and languages. *)
Definition goodStore (env : Env) (fp : string) : Prop :=
  dbOpen env fp = None /\
  snd (dbOpenmppSchemaVersion env fp) = None /\
  (MinSchemaVersion env <= fst (dbOpenmppSchemaVersion env fp))%Z /\
  snd (dbGetModelList env fp false) = None /\
  fst (dbGetModelList env fp false) <> [] /\
  exists ls, dbGetLanguages env fp false = (Some ls, None).

(** The store at [fp] is a good store with a model of digest [D]. *)
Definition containsModel (env : Env) (fp D : string) : Prop :=
  goodStore env fp /\
  In D (map db.Digest (fst (dbGetModelList env fp false))).

(** Some answer of [db.GetModelList] for [fp] has a row of digest [D]. *)
Definition listsDigest (env : Env) (fp D : string) : Prop :=
  exists closed, In D (map db.Digest (fst (dbGetModelList env fp closed))).

(** The entry was built from a row and the language list of the store
    at [fp], through a connection opened on [fp]. *)
Definition builtFrom (env : Env) (mLogDir : string) (isLogDir : bool)
           (fp : string) (e : modelDef) : Prop :=
  exists dbc closed row ls,
    db.connPath dbc = fp /\
    In row (fst (dbGetModelList env fp closed)) /\
    dbGetLanguages env fp closed = (Some ls, None) /\
    e = newModelDef dbc (pathDir env fp) mLogDir isLogDir ls row.

(** The catalog a refresh installs. *)
Definition installedBy (mDir mLogDir : string) (isLogDir : bool)
           (mLst : list modelDef) : ModelCatalog :=
  {| modelDir := mDir;
     isDirEnabled := true;
     modelLogDir := mLogDir;
     isLogDirEnabled := isLogDir;
     modelLst := mLst |}.

(** The world after [Close] was called on a connection. *)
Definition afterClose (env : Env) (dbc : db.Conn) (w : World) : World :=
  {| trace := trace w ++ [EvClose dbc (dbClose env (trace w) dbc)];
     nextConn := nextConn w |}.

(** The world after a line was written to the log. *)
Definition logged (parts : list string) (w : World) : World := snd (Log parts w).

(** The order of [sort.Strings]. *)
Definition leS (s1 s2 : string) : Prop := (s1 <=? s2)%string = true.

(** What the walk with the callback of [RefreshSqlite] returns: the first
    failure, logged, or no error and an unchanged log. *)
Definition walkOutcome (env : Env) (path : string) (info : filepath.FsNode)
           (failure : option (string * string)) : Prop :=
  forall pl w,
    match failure with
    | Some (p, msg) =>
        exists pl',
          filepath.walk path info (walkFn env) (pl, w)
          = (Some (errorString msg),
             (pl', logged ["Error at refresh model catalog, path: "; p; " : "; msg] w))
    | None =>
        exists pl',
          filepath.walk path info (walkFn env) (pl, w) = (None, (pl', w))
    end.

(** ** The read-only queries *)

(** [ModelCatalogConfig], the fields [toPublicConfig] fills. *)
Record ModelCatalogConfig : Type := {
  ModelDir : string;
  ModelLogDir : string;
  IsLogDirEnabled : bool
}.

Definition toPublicConfig (mc : ModelCatalog) : ModelCatalogConfig :=
  {| ModelDir := modelDir mc;
     ModelLogDir := modelLogDir mc;
     IsLogDirEnabled := isLogDirEnabled mc |}.

Definition getModelDir (mc : ModelCatalog) : string * bool :=
  (modelDir mc, isDirEnabled mc).

Definition getModelLogDir (mc : ModelCatalog) : string * bool :=
  (modelLogDir mc, isLogDirEnabled mc).

Module basic.

(** [modelBasic]: name, digest and file locations of a model. *)
Record modelBasic : Type := {
  name : string;
  digest : string;
  binDir : string;
  logDir : string;
  isLogDir : bool
}.

(** [modelBasic{}] *)
Definition zero : modelBasic :=
  {| name := ""; digest := ""; binDir := ""; logDir := ""; isLogDir := false |}.

End basic.

(** The [modelBasic] literal of [modelBasicByDigest] and [allModels]. *)
Definition basicOf (m : modelDef) : basic.modelBasic :=
  {| basic.name := nameOf m;
     basic.digest := digestOf m;
     basic.binDir := binDir m;
     basic.logDir := logDir m;
     basic.isLogDir := isLogDir m |}.

(** [s[i]] for an [int] index; [None] is the run-time panic of an index
    out of range. *)
Definition sliceAt {A : Type} (s : list A) (i : Z) : option A :=
  if (i <? 0)%Z then None else nth_error s (Z.to_nat i).

(** [s[i] = x]; [None] is the panic of an index out of range. *)
Fixpoint sliceSet {A : Type} (s : list A) (i : nat) (x : A) : option (list A) :=
  match s, i with
  | [], _ => None
  | _ :: t, O => Some (x :: t)
  | h :: t, S i' =>
      match sliceSet t i' x with
      | Some t' => Some (h :: t')
      | None => None
      end
  end.

(** [for idx := range src { dst[idx] = f(src[idx]) }] *)
Fixpoint rangeFill {A B : Type} (f : A -> B) (src : list A)
         (idxs : list nat) (dst : list B) : option (list B) :=
  match idxs with
  | [] => Some dst
  | idx :: rest =>
      match nth_error src idx with
      | None => None
      | Some m =>
          match sliceSet dst idx (f m) with
          | None => None
          | Some dst' => rangeFill f src rest dst'
          end
      end
  end.

(** [allModelDigests]: [make] a slice of the length of the list, then
    fill it index by index. *)
Definition allModelDigests (mc : ModelCatalog) : option (list string) :=
  let ds := repeat "" (length (modelLst mc)) in
  rangeFill digestOf (modelLst mc) (seq 0 (length (modelLst mc))) ds.

(** [allModels] *)
Definition allModels (mc : ModelCatalog) : option (list basic.modelBasic) :=
  let mbs := repeat basic.zero (length (modelLst mc)) in
  rangeFill basicOf (modelLst mc) (seq 0 (length (modelLst mc))) mbs.

(** [modelBasicByDigest] *)
Definition modelBasicByDigest (mc : ModelCatalog) (digest : string)
  : option (basic.modelBasic * bool) :=
  let '(idx, ok) := indexByDigest mc digest in
  if negb ok
  then Some (basic.zero, false)
  else
    match sliceAt (modelLst mc) idx with
    | Some m => Some (basicOf m, true)
    | None => None
    end.

(** ** The admin handler that closes the catalog *)

Section Handlers.

(** [http.ResponseWriter] with the two operations the handler uses:
    [http.Error(w, msg, code)] and [w.Header().Set(key, value)]. *)
Variable Response : Type.
Variable httpError : Response -> string -> Z -> Response.
Variable headerSet : Response -> string -> string -> Response.

(** [http.StatusBadRequest] *)
Definition StatusBadRequest : Z := 400.

(** [allModelsCloseHandler], with [theCatalog] passed in and out. *)
Definition allModelsCloseHandler (env : Env) (theCatalog : ModelCatalog)
           (w : Response) : M (ModelCatalog * Response) :=
  let '(mDir, _) := getModelDir theCatalog in
  r <- Close env theCatalog ;;
  let '(err, theCatalog') := r in
  match err with
  | Some e =>
      Log [Error e] ;;
      ret (theCatalog',
           httpError w ("Failed to close models catalog: " ++ mDir)%string
                     StatusBadRequest)
  | None =>
      let w1 := headerSet w "Content-Location"
                          ("/api/admin/all-models/close/" ++ mDir)%string in
      ret (theCatalog', headerSet w1 "Content-Type" "text/plain")
  end.

End Handlers.

(** ** A second installation: two mirrored stores, all of them valid *)

Module Mirror.

Definition tree (root : string) : filepath.FsNode :=
  if (root =? "mirror")%string then
    filepath.Dir
      [ ("A", filepath.Dir [("model.sqlite", filepath.File)]);
        ("B", filepath.Dir [("model.sqlite", filepath.File)]) ]
  else Demo.tree root.

Definition dirExist (dir : string) : option error :=
  if (dir =? "mirror")%string then None else Demo.dirExist dir.

Definition modelList (fp : string) (closed : bool)
  : list db.ModelDicRow * option error :=
  if closed then ([], Some (errorString "sql: database is closed"))
  else if (fp =? "mirror/A/model.sqlite")%string then
    ([Demo.row 1 "Road" "d-road" "fr"; Demo.row 2 "Lake" "d-lake" "en"], None)
  else if (fp =? "mirror/B/model.sqlite")%string then
    ([Demo.row 1 "Road" "d-road" "fr"], None)
  else Demo.modelList fp closed.

Definition env : Env :=
  {| isDirExist := dirExist;
     lstat := tree;
     pathDir := Demo.Dir;
     isSqliteExt := Demo.isSqlite;
     MinSchemaVersion := 100;
     dbOpen := Demo.open;
     dbOpenmppSchemaVersion := Demo.schemaVersion;
     dbGetModelList := modelList;
     dbGetLanguages := Demo.languages;
     dbClose := Demo.close |}.

End Mirror.

(** ** More vocabulary *)

(** The paths given to [db.Open] in a run of events. *)
Fixpoint openedPaths (evs : list Event) : list string :=
  match evs with
  | [] => []
  | EvOpen fp _ :: rest => fp :: openedPaths rest
  | _ :: rest => openedPaths rest
  end.

(** The paths visited below a directory, entry after entry. *)
Fixpoint visitedIn (visited : string -> filepath.FsNode -> list string)
         (path : string) (names : list (string * filepath.FsNode)) : list string :=
  match names with
  | [] => []
  | (name, fileInfo) :: rest =>
      visited (filepath.Join path name) fileInfo ++ visitedIn visited path rest
  end.

(** The paths of a tree that has no failure, in the order of the walk:
    a directory before its entries. *)
Fixpoint visited (path : string) (info : filepath.FsNode) : list string :=
  match info with
  | filepath.File => [path]
  | filepath.NoStat _ => []
  | filepath.DirErr _ => []
  | filepath.Dir entries =>
      path :: visitedIn (fun filename fileInfo => visited filename fileInfo)
                        path entries
  end.

(** The path, as a key of an entry. *)
Definition storeOf (m : modelDef) : string := db.connPath (dbConn m).

(** The world after an event was recorded. *)
Definition emitted (e : Event) (w : World) : World := snd (emit e w).

(** The world after [db.Open] was called on [fp]. *)
Definition opened (env : Env) (fp : string) (w : World) : World :=
  snd (Open env fp w).

(** The connection [db.Open] returns in the world [w]. *)
Definition connAt (w : World) (fp : string) : db.Conn :=
  {| db.connId := nextConn w; db.connPath := fp |}.

(** The schema check of lines 71-72 fails for the store at [fp]. *)
Definition schemaBad (env : Env) (fp : string) : bool :=
  negb (isNil (snd (dbOpenmppSchemaVersion env fp)))
  || (fst (dbOpenmppSchemaVersion env fp) <? MinSchemaVersion env)%Z.

(** The check of line 80 fails: an error or no rows. *)
Definition modelListBad (env : Env) (fp : string) (closed : bool) : bool :=
  negb (isNil (snd (dbGetModelList env fp closed)))
  || (Z.of_nat (length (fst (dbGetModelList env fp closed))) <=? 0)%Z.

(** The events [evs] lead from the world [w] to the world [w']. *)
Definition extends (w w' : World) (evs : list Event) : Prop :=
  trace w' = trace w ++ evs.

(** What an entry holds, apart from the identity of its connection
    handle: the path of its store and every other field. *)
Definition content (m : modelDef)
  : string * string * string * bool * bool * db.ModelMeta
    * list string * db.LangMeta * list string :=
  (storeOf m, binDir m, logDir m, isLogDir m, isMetaFull m, meta m,
   langCodes m, langMeta m, matcher m).

(** ** Look-up by digest or name *)

Section IndexLemmas.

Variable dn : string.

Lemma indexLoop_no_digest (lst : list modelDef) :
  forall k n,
    (forall m, In m lst -> digestOf m <> dn) ->
    (0 <= n)%Z ->
    indexLoop dn lst k n = (n, true).
Proof.
  induction lst as [|m rest IH]; intros k n Hd Hn; simpl.
  - destruct (n >=? 0)%Z eqn:E; [reflexivity | lia].
  - destruct (String.eqb_spec (digestOf m) dn) as [E|E].
    + exfalso. apply (Hd m); [now left | exact E].
    + replace (n <? 0)%Z with false by (symmetry; apply Z.ltb_ge; lia).
      simpl. apply IH; [intros m' Hm'; apply Hd; now right | exact Hn].
Qed.

Lemma indexLoop_digest (lst : list modelDef) :
  forall k n i m,
    nth_error lst i = Some m ->
    digestOf m = dn ->
    (forall j m', (j < i)%nat -> nth_error lst j = Some m' -> digestOf m' <> dn) ->
    indexLoop dn lst k n = ((k + Z.of_nat i)%Z, true).
Proof.
  induction lst as [|x rest IH]; intros k n i m Hi Hm Hlt.
  - destruct i; discriminate.
  - destruct i as [|i]; simpl in *.
    + inversion Hi; subst x. rewrite Hm, String.eqb_refl.
      f_equal. lia.
    + destruct (String.eqb_spec (digestOf x) dn) as [E|E].
      * exfalso. apply (Hlt 0%nat x); [lia | reflexivity | exact E].
      * rewrite (IH (k + 1)%Z _ i m Hi Hm).
        -- f_equal. lia.
        -- intros j m' Hj Hn. apply (Hlt (S j) m'); [lia | exact Hn].
Qed.

Lemma indexLoop_name (lst : list modelDef) :
  forall k i m,
    (0 <= k)%Z ->
    (forall m', In m' lst -> digestOf m' <> dn) ->
    nth_error lst i = Some m ->
    nameOf m = dn ->
    (forall j m', (j < i)%nat -> nth_error lst j = Some m' -> nameOf m' <> dn) ->
    indexLoop dn lst k (-1) = ((k + Z.of_nat i)%Z, true).
Proof.
  induction lst as [|x rest IH]; intros k i m Hk Hd Hi Hm Hlt.
  - destruct i; discriminate.
  - simpl.
    destruct (String.eqb_spec (digestOf x) dn) as [E|E].
    { exfalso. apply (Hd x); [now left | exact E]. }
    destruct i as [|i]; simpl in *.
    + inversion Hi; subst x. rewrite Hm, String.eqb_refl. simpl.
      rewrite indexLoop_no_digest.
      * f_equal. lia.
      * intros m' Hm'. apply Hd. now right.
      * exact Hk.
    + destruct (String.eqb_spec (nameOf x) dn) as [En|En].
      * exfalso. apply (Hlt 0%nat x); [lia | reflexivity | exact En].
      * simpl. rewrite (IH (k + 1)%Z i m); try assumption.
        -- f_equal. lia.
        -- lia.
        -- intros m' Hm'. apply Hd. now right.
        -- intros j m' Hj Hn. apply (Hlt (S j) m'); [lia | exact Hn].
Qed.

Lemma indexLoop_none (lst : list modelDef) :
  forall k,
    (forall m, In m lst -> digestOf m <> dn) ->
    (forall m, In m lst -> nameOf m <> dn) ->
    indexLoop dn lst k (-1) = (0%Z, false).
Proof.
  induction lst as [|x rest IH]; intros k Hd Hn; simpl.
  - reflexivity.
  - destruct (String.eqb_spec (digestOf x) dn) as [E|E].
    { exfalso. apply (Hd x); [now left | exact E]. }
    destruct (String.eqb_spec (nameOf x) dn) as [En|En].
    { exfalso. apply (Hn x); [now left | exact En]. }
    simpl. apply IH; intros m Hm; [apply Hd | apply Hn]; now right.
Qed.

End IndexLemmas.

(** C9: [indexByDigestOrName] returns the index of the entry whose digest
    is the token whenever there is one, even when an earlier entry has
    the token as its name; when no digest matches it returns the index
    of the first entry whose name is the token; when neither a digest
    nor a name matches it reports not-found. *)
Theorem C9_indexByDigestOrName_prefers_digest (mc : ModelCatalog) (dn : string) :
  (forall i m,
      nth_error (modelLst mc) i = Some m ->
      digestOf m = dn ->
      (forall j m', (j < i)%nat -> nth_error (modelLst mc) j = Some m' ->
                    digestOf m' <> dn) ->
      indexByDigestOrName mc dn = (Z.of_nat i, true))
  /\
  ((forall m, In m (modelLst mc) -> digestOf m <> dn) ->
   forall i m,
      nth_error (modelLst mc) i = Some m ->
      nameOf m = dn ->
      (forall j m', (j < i)%nat -> nth_error (modelLst mc) j = Some m' ->
                    nameOf m' <> dn) ->
      indexByDigestOrName mc dn = (Z.of_nat i, true))
  /\
  ((forall m, In m (modelLst mc) -> digestOf m <> dn) ->
   (forall m, In m (modelLst mc) -> nameOf m <> dn) ->
   indexByDigestOrName mc dn = (0%Z, false)).
Proof.
  unfold indexByDigestOrName. repeat split.
  - intros i m Hi Hm Hlt.
    now rewrite (indexLoop_digest dn (modelLst mc) 0 (-1) i m Hi Hm Hlt).
  - intros Hd i m Hi Hm Hlt.
    rewrite (indexLoop_name dn (modelLst mc) 0 i m); auto. lia.
  - intros Hd Hn. now apply indexLoop_none.
Qed.

Lemma C9_indexByDigestOrName_witness :
  indexByDigestOrName Demo.installed "d-lake" = (2%Z, true) /\
  indexByDigestOrName Demo.installed "Road" = (0%Z, true) /\
  indexByDigestOrName Demo.installed "Ferry" = (0%Z, false).
Proof.
  split; [|split].
  - destruct (C9_indexByDigestOrName_prefers_digest Demo.installed "d-lake")
      as [Hd _].
    apply (Hd 2%nat (nth 2 (modelLst Demo.installed) Demo.dummy)).
    + vm_compute. reflexivity.
    + vm_compute. reflexivity.
    + intros [|[|j]] m' Hj Hn; vm_compute in Hn;
        [ injection Hn as <-; vm_compute; discriminate
        | injection Hn as <-; vm_compute; discriminate
        | lia ].
  - destruct (C9_indexByDigestOrName_prefers_digest Demo.installed "Road")
      as [_ [Hn _]].
    apply (Hn) with (i := 0%nat) (m := nth 0 (modelLst Demo.installed) Demo.dummy).
    + intros m Hm. vm_compute in Hm.
      destruct Hm as [<-|[<-|[<-|[]]]]; vm_compute; discriminate.
    + vm_compute. reflexivity.
    + vm_compute. reflexivity.
    + intros j m' Hj. lia.
  - destruct (C9_indexByDigestOrName_prefers_digest Demo.installed "Ferry")
      as [_ [_ Hnone]].
    apply Hnone; intros m Hm; vm_compute in Hm;
      destruct Hm as [<-|[<-|[<-|[]]]]; vm_compute; discriminate.
Defined.

(** ** RefreshSqlite, one step at a time *)


Lemma RefreshSqlite_unfold (env : Env) (mc : ModelCatalog)
      (mDir mLogDir : string) (w : World) :
  RefreshSqlite env mc mDir mLogDir w =
  if negb (dirUsable env mDir)
  then (Some (errorsNew ("Error: model directory not exist or not accesible: " ++ mDir)%string),
        mc, w)
  else
    match listSqlite env mDir w with
    | (Some e, _, w1) =>
        (Some (errorsNew "Error: fail to list model directory"), mc,
         snd (Log ["Error: fail to list model directory: "; Error e] w1))
    | (None, pathLst, w1) =>
        let r := pathLoop env mLogDir (dirUsable env mLogDir)
                          (sort.Strings pathLst) [] w1 in
        (None,
         installedBy mDir mLogDir (dirUsable env mLogDir) (fst r),
         snd (closeLoop env (modelLst mc) (snd r)))
    end.
Proof.
  unfold RefreshSqlite.
  destruct (dirUsable env mDir) eqn:Hd; simpl; [|reflexivity].
  unfold bind.
  destruct (listSqlite env mDir w) as [[[e|] pathLst] w1]; simpl.
  - reflexivity.
  - destruct (pathLoop env mLogDir (dirUsable env mLogDir)
                       (sort.Strings pathLst) [] w1) as [mLst w2]; simpl.
    destruct (closeLoop env (modelLst mc) w2) as [[] w3]; simpl.
    reflexivity.
Qed.

Lemma dirUsable_empty (env : Env) : dirUsable env "" = false.
Proof. reflexivity. Qed.

Lemma dirUsable_dot (env : Env) : dirUsable env "." = false.
Proof. reflexivity. Qed.

Lemma dirUsable_not_exist (env : Env) (dir : string) :
  isDirExist env dir <> None -> dirUsable env dir = false.
Proof.
  intros H. unfold dirUsable.
  destruct (negb (dir =? "") && negb (dir =? ".")); [|reflexivity].
  destruct (isDirExist env dir); [reflexivity | congruence].
Qed.

(** C7: called with a model directory that is empty or does not exist,
    [RefreshSqlite] returns an error and leaves the catalog (entries and
    directory fields) as it was; nothing is opened, closed or logged. *)
Theorem C7_refresh_missing_dir_no_change (env : Env) (mc : ModelCatalog)
        (mDir mLogDir : string) (w : World) :
  mDir = "" \/ isDirExist env mDir <> None ->
  exists e, RefreshSqlite env mc mDir mLogDir w = (Some e, mc, w).
Proof.
  intros H. rewrite RefreshSqlite_unfold.
  assert (Hu : dirUsable env mDir = false).
  { destruct H as [-> | H]; [apply dirUsable_empty | now apply dirUsable_not_exist]. }
  rewrite Hu. simpl. eexists. reflexivity.
Qed.

Lemma C7_refresh_missing_dir_witness :
  exists e,
    RefreshSqlite Demo.env Demo.installed "/does/not/exist" "" Demo.world1
    = (Some e, Demo.installed, Demo.world1).
Proof.
  apply (C7_refresh_missing_dir_no_change Demo.env Demo.installed
           "/does/not/exist" "" Demo.world1).
  right. vm_compute. discriminate.
Defined.

(** C10: a model directory "." is refused like the empty one, with the
    catalog left as it was, whether or not "." exists; a model log
    directory "" or "." never changes the error returned and, when the
    refresh goes through, leaves [isLogDirEnabled] false. *)
Theorem C10_dot_is_treated_as_empty (env : Env) (mc : ModelCatalog)
        (mDir mLogDir : string) (w : World) :
  (exists e, RefreshSqlite env mc "." mLogDir w = (Some e, mc, w))
  /\ fst (fst (RefreshSqlite env mc mDir "" w))
     = fst (fst (RefreshSqlite env mc mDir mLogDir w))
  /\ fst (fst (RefreshSqlite env mc mDir "." w))
     = fst (fst (RefreshSqlite env mc mDir mLogDir w))
  /\ match RefreshSqlite env mc mDir "" w with
     | (None, mc', _) => isLogDirEnabled mc' = false /\ modelLogDir mc' = ""
     | (Some _, mc', _) => mc' = mc
     end
  /\ match RefreshSqlite env mc mDir "." w with
     | (None, mc', _) => isLogDirEnabled mc' = false /\ modelLogDir mc' = "."
     | (Some _, mc', _) => mc' = mc
     end.
Proof.
  repeat split.
  - rewrite RefreshSqlite_unfold, dirUsable_dot. simpl. eexists. reflexivity.
  - rewrite !RefreshSqlite_unfold.
    destruct (dirUsable env mDir); simpl; [|reflexivity].
    destruct (listSqlite env mDir w) as [[[e|] pathLst] w1]; reflexivity.
  - rewrite !RefreshSqlite_unfold.
    destruct (dirUsable env mDir); simpl; [|reflexivity].
    destruct (listSqlite env mDir w) as [[[e|] pathLst] w1]; reflexivity.
  - rewrite RefreshSqlite_unfold.
    destruct (dirUsable env mDir); simpl; [|reflexivity].
    destruct (listSqlite env mDir w) as [[[e|] pathLst] w1]; simpl; auto.
  - rewrite RefreshSqlite_unfold.
    destruct (dirUsable env mDir); simpl; [|reflexivity].
    destruct (listSqlite env mDir w) as [[[e|] pathLst] w1]; simpl; auto.
Qed.

(** ** Closing connections *)

Lemma closedConns_app (l1 l2 : list Event) :
  closedConns (l1 ++ l2) = closedConns l1 ++ closedConns l2.
Proof.
  induction l1 as [|ev l1 IH]; simpl; [reflexivity|].
  destruct ev; simpl; try assumption.
  now rewrite IH.
Qed.



Lemma trace_logged (parts : list string) (w : World) :
  trace (logged parts w) = trace w ++ [EvLog (String.concat "" parts)].
Proof. reflexivity. Qed.

Lemma nextConn_logged (parts : list string) (w : World) :
  nextConn (logged parts w) = nextConn w.
Proof. reflexivity. Qed.

Lemma closeFirstErr_cons (env : Env) (m : modelDef) (rest : list modelDef)
      (firstErr : option error) (w : World) :
  closeFirstErr env (m :: rest) firstErr w =
  match dbClose env (trace w) (dbConn m) with
  | Some e =>
      closeFirstErr env rest
        (match firstErr with None => Some e | Some _ => firstErr end)
        (logged [("Error: close db connection error: " ++ Error e)%string]
                (afterClose env (dbConn m) w))
  | None => closeFirstErr env rest firstErr (afterClose env (dbConn m) w)
  end.
Proof.
  unfold afterClose. cbn [closeFirstErr]. unfold bind at 1. unfold connClose at 1.
  destruct (dbClose env (trace w) (dbConn m)); reflexivity.
Qed.

Lemma closeLoop_cons (env : Env) (m : modelDef) (rest : list modelDef) (w : World) :
  closeLoop env (m :: rest) w =
  match dbClose env (trace w) (dbConn m) with
  | Some e =>
      closeLoop env rest
        (logged [("Error: close db connection error: " ++ Error e)%string]
                (afterClose env (dbConn m) w))
  | None => closeLoop env rest (afterClose env (dbConn m) w)
  end.
Proof.
  unfold afterClose. cbn [closeLoop]. unfold bind at 1. unfold connClose at 1.
  destruct (dbClose env (trace w) (dbConn m)); reflexivity.
Qed.

Lemma trace_closed (env : Env) (dbc : db.Conn) (w : World) :
  trace (afterClose env dbc w) = trace w ++ [EvClose dbc (dbClose env (trace w) dbc)].
Proof. reflexivity. Qed.

Lemma nextConn_closed (env : Env) (dbc : db.Conn) (w : World) :
  nextConn (afterClose env dbc w) = nextConn w.
Proof. reflexivity. Qed.

Lemma closeFirstErr_spec (env : Env) (lst : list modelDef) :
  forall firstErr w,
  exists evs,
    trace (snd (closeFirstErr env lst firstErr w)) = trace w ++ evs /\
    nextConn (snd (closeFirstErr env lst firstErr w)) = nextConn w /\
    closedConns evs = map dbConn lst /\
    fst (closeFirstErr env lst firstErr w)
    = match firstErr with Some _ => firstErr | None => firstCloseError evs end.
Proof.
  induction lst as [|m rest IH]; intros firstErr w.
  - exists []. simpl. rewrite app_nil_r. destruct firstErr; auto.
  - rewrite closeFirstErr_cons.
    destruct (dbClose env (trace w) (dbConn m)) as [e|] eqn:Hc.
    + match goal with |- context [closeFirstErr env rest ?f ?w1] =>
        destruct (IH f w1) as (evs & Ht & Hn & Hcl & Hr) end.
      rewrite trace_logged, trace_closed, Hc in Ht.
      rewrite nextConn_logged, nextConn_closed in Hn.
      eexists (EvClose (dbConn m) (Some e) :: EvLog _ :: evs).
      rewrite Ht, Hn, Hr. rewrite <- !app_assoc.
      cbn [app closedConns map firstCloseError].
      rewrite Hcl. repeat split. destruct firstErr; reflexivity.
    + destruct (IH firstErr (afterClose env (dbConn m) w))
        as (evs & Ht & Hn & Hcl & Hr).
      rewrite trace_closed, Hc in Ht. rewrite nextConn_closed in Hn.
      exists (EvClose (dbConn m) None :: evs).
      rewrite Ht, Hn, Hr. rewrite <- !app_assoc.
      cbn [app closedConns map firstCloseError].
      rewrite Hcl. repeat split.
Qed.

Lemma closeLoop_spec (env : Env) (lst : list modelDef) :
  forall w,
  exists evs,
    trace (snd (closeLoop env lst w)) = trace w ++ evs /\
    nextConn (snd (closeLoop env lst w)) = nextConn w /\
    closedConns evs = map dbConn lst.
Proof.
  induction lst as [|m rest IH]; intros w.
  - exists []. simpl. now rewrite app_nil_r.
  - rewrite closeLoop_cons.
    destruct (dbClose env (trace w) (dbConn m)) as [e|] eqn:Hc.
    + match goal with |- context [closeLoop env rest ?w1] =>
        destruct (IH w1) as (evs & Ht & Hn & Hcl) end.
      rewrite trace_logged, trace_closed, Hc in Ht.
      rewrite nextConn_logged, nextConn_closed in Hn.
      eexists (EvClose (dbConn m) (Some e) :: EvLog _ :: evs).
      rewrite Ht, Hn. rewrite <- !app_assoc. cbn [app closedConns map].
      rewrite Hcl. repeat split.
    + destruct (IH (afterClose env (dbConn m) w)) as (evs & Ht & Hn & Hcl).
      rewrite trace_closed, Hc in Ht. rewrite nextConn_closed in Hn.
      exists (EvClose (dbConn m) None :: evs).
      rewrite Ht, Hn. rewrite <- !app_assoc. cbn [app closedConns map].
      rewrite Hcl. repeat split.
Qed.

(** C8: [Close] calls [Close] on the connection of every entry, in
    order and whatever the earlier closes returned, returns the first
    close error (none if every close succeeds) and leaves the entry list
    empty; a [Close] right after it closes nothing and returns no error. *)
Theorem C8_close_attempts_all_returns_first_error
        (env : Env) (mc : ModelCatalog) (w : World) :
  exists evs,
    trace (snd (Close env mc w)) = trace w ++ evs /\
    closedConns evs = map dbConn (modelLst mc) /\
    fst (fst (Close env mc w)) = firstCloseError evs /\
    modelLst (snd (fst (Close env mc w))) = [] /\
    Close env (snd (fst (Close env mc w))) (snd (Close env mc w))
    = (None, snd (fst (Close env mc w)), snd (Close env mc w)).
Proof.
  destruct (closeFirstErr_spec env (modelLst mc) None w)
    as (evs & Ht & Hn & Hcl & Hr).
  exists evs. unfold Close, bind, ret.
  destruct (closeFirstErr env (modelLst mc) None w) as [r w1]; simpl in *.
  repeat split; assumption.
Qed.

(** ** Building the list of models *)

Section Builder.

Variable env : Env.
Variable mLogDir : string.
Variable isLogDir : bool.

Lemma digestOf_newModelDef dbc d ls row :
  digestOf (newModelDef dbc d mLogDir isLogDir ls row) = db.Digest row.
Proof.
  unfold newModelDef. destruct (langLoop ls (db.DefaultLangCode row)). reflexivity.
Qed.

Lemma dicLoop_cons dbc d ls row rest mLst w :
  dicLoop dbc d mLogDir isLogDir ls (row :: rest) mLst w =
  if existsb (fun m => (db.Digest row =? digestOf m)%string) mLst
  then dicLoop dbc d mLogDir isLogDir ls rest mLst
         (logged ["Skip: model already exist in other database: ";
                  db.Name row; " "; db.Digest row] w)
  else dicLoop dbc d mLogDir isLogDir ls rest
         (mLst ++ [newModelDef dbc d mLogDir isLogDir ls row]) w.
Proof.
  cbn [dicLoop].
  destruct (existsb (fun m => (db.Digest row =? digestOf m)%string) mLst);
    reflexivity.
Qed.

Lemma existsb_digest (D : string) (mLst : list modelDef) :
  existsb (fun m => (D =? digestOf m)%string) mLst = true
  <-> In D (map digestOf mLst).
Proof.
  rewrite existsb_exists, in_map_iff. split.
  - intros (m & Hin & He). apply String.eqb_eq in He. eauto.
  - intros (m & He & Hin). exists m. split; [exact Hin|].
    apply String.eqb_eq. congruence.
Qed.

Lemma dicLoop_spec dbc d ls (rows : list db.ModelDicRow) :
  forall mLst w,
  exists new,
    fst (dicLoop dbc d mLogDir isLogDir ls rows mLst w) = mLst ++ new /\
    Forall (fun e => exists row,
                In row rows /\ e = newModelDef dbc d mLogDir isLogDir ls row) new /\
    (NoDup (map digestOf mLst) -> NoDup (map digestOf (mLst ++ new))) /\
    (forall row, In row rows -> In (db.Digest row) (map digestOf (mLst ++ new))) /\
    Forall (fun e => ~ In (digestOf e) (map digestOf mLst)) new.
Proof.
  induction rows as [|row rest IH]; intros mLst w.
  - exists []. simpl. rewrite app_nil_r. repeat split; auto. intros _ [].
  - rewrite dicLoop_cons.
    destruct (existsb (fun m => (db.Digest row =? digestOf m)%string) mLst) eqn:Hex.
    + apply existsb_digest in Hex.
      match goal with |- context [dicLoop _ _ _ _ _ rest mLst ?w1] =>
        destruct (IH mLst w1) as (new & Hf & Hnew & Hnd & Hall & Hfresh) end.
      exists new. repeat split; auto.
      * eapply Forall_impl; [|exact Hnew].
        intros e (r & Hr & He). exists r. split; [now right | exact He].
      * intros r [<- | Hr]; [|now apply Hall].
        rewrite map_app. apply in_or_app. now left.
    + assert (Hnot : ~ In (db.Digest row) (map digestOf mLst)).
      { intros Hin. apply existsb_digest in Hin. congruence. }
      set (e0 := newModelDef dbc d mLogDir isLogDir ls row).
      destruct (IH (mLst ++ [e0]) w) as (new & Hf & Hnew & Hnd & Hall & Hfresh).
      assert (He0 : digestOf e0 = db.Digest row) by apply digestOf_newModelDef.
      assert (Hmap : map digestOf (mLst ++ [e0]) = map digestOf mLst ++ [db.Digest row]).
      { rewrite map_app. simpl. now rewrite He0. }
      exists (e0 :: new). rewrite Hf, <- app_assoc. simpl.
      rewrite <- app_assoc in Hnd, Hall. simpl in Hnd, Hall.
      repeat split.
      * constructor.
        -- exists row. split; [now left | reflexivity].
        -- eapply Forall_impl; [|exact Hnew].
           intros e (r & Hr & He). exists r. split; [now right | exact He].
      * intros Hm. apply Hnd. rewrite Hmap.
        apply NoDup_app; [exact Hm | repeat constructor; intros [] |].
        intros a Ha [<- | []]. contradiction.
      * intros r [<- | Hr]; [|now apply Hall].
        rewrite map_app. apply in_or_app. right. simpl. left. exact He0.
      * constructor.
        -- now rewrite He0.
        -- eapply Forall_impl; [|exact Hfresh].
           intros e Hne Hin. apply Hne. rewrite Hmap.
           apply in_or_app. now left.
Qed.

(** What the body of the path loop leaves in the list of models: the
    list as it was, or the result of [dicLoop] over the rows of [fp]. *)
Lemma pathBody_cases (fp : string) (mLst : list modelDef) (w : World) :
  fst (pathBody env mLogDir isLogDir fp mLst w) = mLst
  \/ exists dbc closed ls w',
      db.connPath dbc = fp /\
      dbOpen env fp = None /\
      closed = (negb (isNil (snd (dbOpenmppSchemaVersion env fp)))
                || (fst (dbOpenmppSchemaVersion env fp) <? MinSchemaVersion env)%Z) /\
      dbGetLanguages env fp closed = (Some ls, None) /\
      fst (pathBody env mLogDir isLogDir fp mLst w)
      = fst (dicLoop dbc (pathDir env fp) mLogDir isLogDir ls
                     (fst (dbGetModelList env fp closed)) mLst w').
Proof.
  unfold pathBody, bind, Open.
  destruct (dbOpen env fp) as [e|] eqn:Hopen.
  { left. reflexivity. }
  destruct (dbOpenmppSchemaVersion env fp) as [nv err] eqn:Hsv.
  cbn [fst snd].
  set (dbc := {| db.connId := nextConn w; db.connPath := fp |}).
  destruct (negb (isNil err) || (nv <? MinSchemaVersion env)%Z) eqn:Hbad.
  - cbn [bind]. unfold bind, ret.
    destruct (emit (EvSchemaVersion dbc) _) as [[] w1].
    destruct (Log _ w1) as [[] w2].
    destruct (connClose env dbc w2) as [r w3].
    destruct (emit (EvGetModelList dbc) w3) as [[] w4].
    destruct (dbGetModelList env fp true) as [dicLst err'] eqn:Hml.
    destruct (negb (isNil err') || (Z.of_nat (length dicLst) <=? 0)%Z).
    { left. destruct (Log _ w4) as [[] w5].
      destruct (connClose env dbc w5) as [r' w6]. reflexivity. }
    destruct (emit (EvGetLanguages dbc) w4) as [[] w5].
    destruct (dbGetLanguages env fp true) as [[ls|] [err''|]] eqn:Hls;
      try (left; destruct (Log _ w5) as [[] w6];
           destruct (connClose env dbc w6) as [r' w7]; reflexivity).
    right. exists dbc, true, ls, w5. rewrite Hml. repeat split; auto.
  - unfold bind, ret.
    destruct (emit (EvSchemaVersion dbc) _) as [[] w1].
    destruct (emit (EvGetModelList dbc) w1) as [[] w4].
    destruct (dbGetModelList env fp false) as [dicLst err'] eqn:Hml.
    destruct (negb (isNil err') || (Z.of_nat (length dicLst) <=? 0)%Z).
    { left. destruct (Log _ w4) as [[] w5].
      destruct (connClose env dbc w5) as [r' w6]. reflexivity. }
    destruct (emit (EvGetLanguages dbc) w4) as [[] w5].
    destruct (dbGetLanguages env fp false) as [[ls|] [err''|]] eqn:Hls;
      try (left; destruct (Log _ w5) as [[] w6];
           destruct (connClose env dbc w6) as [r' w7]; reflexivity).
    right. exists dbc, false, ls, w5. rewrite Hml. repeat split; auto.
Qed.

Lemma pathBody_good (fp : string) (mLst : list modelDef) (w : World) :
  goodStore env fp ->
  exists dbc ls w',
    db.connPath dbc = fp /\
    dbGetLanguages env fp false = (Some ls, None) /\
    fst (pathBody env mLogDir isLogDir fp mLst w)
    = fst (dicLoop dbc (pathDir env fp) mLogDir isLogDir ls
                   (fst (dbGetModelList env fp false)) mLst w').
Proof.
  intros (Hopen & Hserr & Hnv & Hmerr & Hrows & ls & Hls).
  unfold pathBody, bind, Open. rewrite Hopen.
  destruct (dbOpenmppSchemaVersion env fp) as [nv err] eqn:Hsv.
  cbn [fst snd] in *. subst err.
  set (dbc := {| db.connId := nextConn w; db.connPath := fp |}).
  replace (nv <? MinSchemaVersion env)%Z with false
    by (symmetry; apply Z.ltb_ge; exact Hnv).
  cbn [isNil negb orb]. unfold bind, ret.
  destruct (emit (EvSchemaVersion dbc) _) as [[] w1].
  destruct (emit (EvGetModelList dbc) w1) as [[] w4].
  destruct (dbGetModelList env fp false) as [dicLst err'] eqn:Hml.
  cbn [fst snd] in *. subst err'.
  assert (Hlen : (Z.of_nat (length dicLst) <=? 0)%Z = false).
  { apply Z.leb_gt. destruct dicLst; [congruence | simpl length; lia]. }
  rewrite Hlen. cbn [isNil negb orb].
  destruct (emit (EvGetLanguages dbc) w4) as [[] w5].
  rewrite Hls.
  exists dbc, ls, w5. repeat split.
Qed.

Lemma pathBody_spec (fp : string) (mLst : list modelDef) (w : World) :
  exists new,
    fst (pathBody env mLogDir isLogDir fp mLst w) = mLst ++ new /\
    Forall (builtFrom env mLogDir isLogDir fp) new /\
    (NoDup (map digestOf mLst) -> NoDup (map digestOf (mLst ++ new))) /\
    Forall (fun e => ~ In (digestOf e) (map digestOf mLst)) new.
Proof.
  destruct (pathBody_cases fp mLst w)
    as [Hsame | (dbc & closed & ls & w' & Hp & _ & _ & Hls & Hf)].
  - exists []. rewrite Hsame, app_nil_r. repeat split; auto.
  - destruct (dicLoop_spec dbc (pathDir env fp) ls
                (fst (dbGetModelList env fp closed)) mLst w')
      as (new & Hd & Hnew & Hnd & _ & Hfresh).
    exists new. rewrite Hf, Hd. repeat split; auto.
    eapply Forall_impl; [|exact Hnew].
    intros e (row & Hrow & He). exists dbc, closed, row, ls. auto.
Qed.

Lemma pathLoop_cons (fp : string) (rest : list string)
      (mLst : list modelDef) (w : World) :
  pathLoop env mLogDir isLogDir (fp :: rest) mLst w
  = pathLoop env mLogDir isLogDir rest
             (fst (pathBody env mLogDir isLogDir fp mLst w))
             (snd (pathBody env mLogDir isLogDir fp mLst w)).
Proof.
  cbn [pathLoop]. unfold bind.
  destruct (pathBody env mLogDir isLogDir fp mLst w). reflexivity.
Qed.

Lemma pathLoop_spec (pathLst : list string) :
  forall mLst w,
  exists new,
    fst (pathLoop env mLogDir isLogDir pathLst mLst w) = mLst ++ new /\
    Forall (fun e => exists fp, In fp pathLst /\ builtFrom env mLogDir isLogDir fp e) new /\
    (NoDup (map digestOf mLst) -> NoDup (map digestOf (mLst ++ new))) /\
    Forall (fun e => ~ In (digestOf e) (map digestOf mLst)) new.
Proof.
  induction pathLst as [|fp rest IH]; intros mLst w.
  - exists []. simpl. rewrite app_nil_r. repeat split; auto.
  - rewrite pathLoop_cons.
    destruct (pathBody_spec fp mLst w) as (new1 & H1 & Hb1 & Hnd1 & Hfr1).
    rewrite H1.
    destruct (IH (mLst ++ new1) (snd (pathBody env mLogDir isLogDir fp mLst w)))
      as (new2 & H2 & Hb2 & Hnd2 & Hfr2).
    exists (new1 ++ new2). rewrite H2, <- app_assoc.
    rewrite <- app_assoc in Hnd2.
    repeat split.
    + apply Forall_app. split.
      * eapply Forall_impl; [|exact Hb1].
        intros e He. exists fp. split; [now left | exact He].
      * eapply Forall_impl; [|exact Hb2].
        intros e (fp' & Hin & He). exists fp'. split; [now right | exact He].
    + auto.
    + apply Forall_app. split; [exact Hfr1|].
      eapply Forall_impl; [|exact Hfr2].
      intros e Hne Hin. apply Hne. rewrite map_app. apply in_or_app. now left.
Qed.

End Builder.

(** C4: after a refresh that installs a new list of models no two
    entries of the catalog have the same digest (a refresh that fails
    leaves the catalog as it was): [dicLoop] skips every row whose digest
    is carried by an entry accepted before. *)
Theorem C4_refresh_digests_unique (env : Env) (mc : ModelCatalog)
        (mDir mLogDir : string) (w : World) :
  match RefreshSqlite env mc mDir mLogDir w with
  | (None, mc', _) => NoDup (map digestOf (modelLst mc'))
  | (Some _, mc', _) => mc' = mc
  end.
Proof.
  rewrite RefreshSqlite_unfold.
  destruct (dirUsable env mDir); simpl; [|reflexivity].
  destruct (listSqlite env mDir w) as [[[e|] pathLst] w1]; simpl; [reflexivity|].
  destruct (pathLoop_spec env mLogDir (dirUsable env mLogDir)
              (sort.Strings pathLst) [] w1) as (new & Hf & _ & Hnd & _).
  rewrite Hf. apply Hnd. constructor.
Qed.

(** ** The language codes of an entry *)

Lemma rev_all_equal (d : string) (l : list string) :
  Forall (fun c => c = d) l -> rev l = l.
Proof.
  intros H.
  assert (Hrep : forall l', Forall (fun c => c = d) l' -> l' = repeat d (length l')).
  { induction 1 as [|c l' Hc _ IH]; simpl; [reflexivity | now rewrite Hc, <- IH]. }
  rewrite (Hrep (rev l)), length_rev.
  - symmetry. now apply Hrep.
  - apply Forall_rev. exact H.
Qed.

Lemma langLoop_fold (d : string) (rows : list db.LangLstRow) :
  forall ml lt,
    fold_left
      (fun (acc : list string * list string) (l : db.LangLstRow) =>
         let '(ml, lt) := acc in
         if (db.LangCode l =? d)%string
         then ([db.LangCode l] ++ ml, [db.LangCode l] ++ lt)
         else (ml ++ [db.LangCode l], lt ++ [db.LangCode l]))
      rows (ml, lt)
    = (rev (filter (fun c => (c =? d)%string) (map db.LangCode rows)) ++ ml
         ++ filter (fun c => negb (c =? d)%string) (map db.LangCode rows),
       rev (filter (fun c => (c =? d)%string) (map db.LangCode rows)) ++ lt
         ++ filter (fun c => negb (c =? d)%string) (map db.LangCode rows)).
Proof.
  induction rows as [|r rows IH]; intros ml lt; simpl.
  - now rewrite !app_nil_r.
  - destruct (db.LangCode r =? d)%string; simpl; rewrite IH.
    + now rewrite <- !app_assoc.
    + now rewrite <- !app_assoc.
Qed.

Lemma langLoop_defaultFirst (ls : db.LangMeta) (d : string) :
  langLoop ls d = (defaultFirst d (storeCodes ls), defaultFirst d (storeCodes ls)).
Proof.
  unfold langLoop, defaultFirst, storeCodes.
  rewrite langLoop_fold. simpl.
  rewrite (rev_all_equal d); [reflexivity|].
  apply Forall_forall. intros c Hc.
  apply filter_In in Hc. now apply String.eqb_eq.
Qed.

(** When the default code is one of the store's codes, it is the head. *)
Lemma defaultFirst_head (d : string) (codes : list string) :
  In d codes -> hd_error (defaultFirst d codes) = Some d.
Proof.
  intros Hin. unfold defaultFirst.
  assert (Hf : In d (filter (fun c => (c =? d)%string) codes)).
  { apply filter_In. split; [exact Hin | apply String.eqb_refl]. }
  destruct (filter (fun c => (c =? d)%string) codes) as [|c rest] eqn:E.
  - destruct Hf.
  - assert (Hc : In c (filter (fun c => (c =? d)%string) codes))
      by (rewrite E; now left).
    apply filter_In in Hc. destruct Hc as [_ Hc].
    apply String.eqb_eq in Hc. now subst c.
Qed.

Lemma newModelDef_langCodes mLogDir isLogDir dbc d ls row :
  langCodes (newModelDef dbc d mLogDir isLogDir ls row)
  = defaultFirst (db.DefaultLangCode row) (storeCodes ls)
  /\ langMeta (newModelDef dbc d mLogDir isLogDir ls row) = ls
  /\ meta (newModelDef dbc d mLogDir isLogDir ls row) = {| db.Model := row |}
  /\ dbConn (newModelDef dbc d mLogDir isLogDir ls row) = dbc
  /\ binDir (newModelDef dbc d mLogDir isLogDir ls row) = d.
Proof.
  unfold newModelDef. rewrite langLoop_defaultFirst. repeat split.
Qed.

(** C6: every entry installed by a refresh carries the language list
    its store returned, and its language codes are that list with the
    default-language code of its model first and the other codes in
    their original order; languages en, fr, de with default fr give
    fr, en, de. *)
Theorem C6_default_language_first (env : Env) (mc : ModelCatalog)
        (mDir mLogDir : string) (w : World) :
  match RefreshSqlite env mc mDir mLogDir w with
  | (None, mc', _) =>
      Forall (fun e =>
                (exists closed,
                    dbGetLanguages env (db.connPath (dbConn e)) closed
                    = (Some (langMeta e), None)) /\
                langCodes e
                = defaultFirst (db.DefaultLangCode (db.Model (meta e)))
                               (storeCodes (langMeta e)))
             (modelLst mc')
  | (Some _, mc', _) => mc' = mc
  end
  /\ fst (langLoop Demo.enFrDe "fr") = ["fr"; "en"; "de"].
Proof.
  split; [|reflexivity].
  rewrite RefreshSqlite_unfold.
  destruct (dirUsable env mDir); simpl; [|reflexivity].
  destruct (listSqlite env mDir w) as [[[e|] pathLst] w1]; simpl; [reflexivity|].
  destruct (pathLoop_spec env mLogDir (dirUsable env mLogDir)
              (sort.Strings pathLst) [] w1) as (new & Hf & Hb & _ & _).
  rewrite Hf. simpl.
  eapply Forall_impl; [|exact Hb].
  intros m (fp & _ & dbc & closed & row & ls & Hp & _ & Hls & ->).
  destruct (newModelDef_langCodes mLogDir (dirUsable env mLogDir) dbc
              (pathDir env fp) ls row) as (Hl & Hm & Hmeta & Hc & _).
  rewrite Hl, Hm, Hmeta, Hc, Hp. split; [exists closed; exact Hls | reflexivity].
Qed.

(** ** Sorting the paths *)

Lemma ascii_compare_N (a b : ascii) :
  Ascii.compare a b = N.compare (N_of_ascii a) (N_of_ascii b).
Proof. reflexivity. Qed.

Lemma string_compare_trans_le (s1 : string) :
  forall s2 s3,
    String.compare s1 s2 <> Gt -> String.compare s2 s3 <> Gt ->
    String.compare s1 s3 <> Gt.
Proof.
  induction s1 as [|c1 s1 IH]; intros [|c2 s2] [|c3 s3]; simpl;
    try congruence.
  rewrite !ascii_compare_N.
  destruct (N.compare_spec (N_of_ascii c1) (N_of_ascii c2)) as [E12|L12|G12];
    destruct (N.compare_spec (N_of_ascii c2) (N_of_ascii c3)) as [E23|L23|G23];
    try congruence; intros H12 H23.
  - rewrite E12, E23, N.compare_refl. now apply (IH s2 s3).
  - rewrite E12. apply N.compare_lt_iff in L23. now rewrite L23.
  - rewrite <- E23. apply N.compare_lt_iff in L12. now rewrite L12.
  - assert (L13 : (N_of_ascii c1 < N_of_ascii c3)%N) by lia.
    apply N.compare_lt_iff in L13. now rewrite L13.
Qed.

Lemma leb_trans (s1 s2 s3 : string) :
  (s1 <=? s2)%string = true -> (s2 <=? s3)%string = true ->
  (s1 <=? s3)%string = true.
Proof.
  unfold String.leb. intros H12 H23.
  assert (H : String.compare s1 s3 <> Gt).
  { apply (string_compare_trans_le s1 s2 s3).
    - destruct (String.compare s1 s2); congruence.
    - destruct (String.compare s2 s3); congruence. }
  destruct (String.compare s1 s3); congruence.
Qed.

Lemma ltb_not_leb (s1 s2 : string) :
  (s1 <? s2)%string = true -> (s2 <=? s1)%string = true -> False.
Proof.
  unfold String.ltb, String.leb. rewrite (String.compare_antisym s2 s1).
  destruct (String.compare s1 s2); simpl; congruence.
Qed.

Lemma In_insert (x y : string) (l : list string) :
  In y (sort.insert x l) <-> y = x \/ In y l.
Proof.
  induction l as [|z l IH]; simpl.
  - intuition.
  - destruct (x <=? z)%string; simpl; [intuition|].
    rewrite IH. intuition.
Qed.

Lemma In_Strings (y : string) (l : list string) :
  In y (sort.Strings l) <-> In y l.
Proof.
  induction l as [|x l IH]; simpl; [reflexivity|].
  rewrite In_insert, IH. intuition.
Qed.


Lemma insert_sorted (x : string) (l : list string) :
  StronglySorted leS l -> StronglySorted leS (sort.insert x l).
Proof.
  induction 1 as [|z l Hs IH Hz]; simpl.
  - repeat constructor.
  - destruct (x <=? z)%string eqn:E.
    + constructor; [constructor; assumption|].
      constructor; [exact E|].
      eapply Forall_impl; [|exact Hz].
      intros a Ha. eapply leb_trans; eassumption.
    + constructor; [exact IH|].
      apply Forall_forall. intros a Ha. apply In_insert in Ha.
      destruct Ha as [-> | Ha].
      * destruct (String.leb_total x z) as [H|H]; [congruence | exact H].
      * rewrite Forall_forall in Hz. now apply Hz.
Qed.

Lemma Strings_sorted (l : list string) : StronglySorted leS (sort.Strings l).
Proof.
  induction l as [|x l IH]; simpl; [constructor | now apply insert_sorted].
Qed.

Lemma sorted_prefix_le (l1 l2 : list string) (x : string) :
  StronglySorted leS (l1 ++ x :: l2) -> Forall (fun y => leS y x) l1.
Proof.
  induction l1 as [|y l1 IH]; simpl; intros H; [constructor|].
  inversion H as [|? ? Hs Hall]; subst.
  constructor; [|now apply IH].
  rewrite Forall_forall in Hall. apply Hall. apply in_or_app. right. now left.
Qed.

Lemma first_occurrence (x : string) (l : list string) :
  In x l -> exists l1 l2, l = l1 ++ x :: l2 /\ ~ In x l1.
Proof.
  induction l as [|y l IH]; intros H; [destruct H|].
  destruct (String.eqb_spec y x) as [->|Hne].
  - exists [], l. split; [reflexivity | intros []].
  - destruct H as [H|H]; [congruence|].
    destruct (IH H) as (l1 & l2 & -> & Hn).
    exists (y :: l1), l2. split; [reflexivity|].
    intros [E|E]; [congruence | contradiction].
Qed.

Lemma filter_unique_digest (D : string) (l : list modelDef) (e : modelDef) :
  NoDup (map digestOf l) -> In e l -> digestOf e = D ->
  filter (fun m => (digestOf m =? D)%string) l = [e].
Proof.
  intros Hnd Hin HD. subst D.
  induction l as [|x l IH]; [destruct Hin|].
  simpl in Hnd. inversion Hnd as [|? ? Hx Hnd']; subst.
  assert (Hnone : forall l', ~ In (digestOf e) (map digestOf l') ->
                             filter (fun m => (digestOf m =? digestOf e)%string) l' = []).
  { induction l' as [|z l' IHl']; simpl; intros Hn; [reflexivity|].
    destruct (String.eqb_spec (digestOf z) (digestOf e)) as [E|E].
    - exfalso. apply Hn. now left.
    - apply IHl'. intros H. apply Hn. now right. }
  simpl. destruct Hin as [-> | Hin].
  - rewrite String.eqb_refl. f_equal. now apply Hnone.
  - destruct (String.eqb_spec (digestOf x) (digestOf e)) as [E|E].
    + exfalso. apply Hx. rewrite E. now apply in_map.
    + now apply IH.
Qed.

Lemma pathLoop_app (env : Env) (mLogDir : string) (isLogDir : bool)
      (l1 l2 : list string) :
  forall mLst w,
    pathLoop env mLogDir isLogDir (l1 ++ l2) mLst w
    = pathLoop env mLogDir isLogDir l2
               (fst (pathLoop env mLogDir isLogDir l1 mLst w))
               (snd (pathLoop env mLogDir isLogDir l1 mLst w)).
Proof.
  induction l1 as [|fp l1 IH]; intros mLst w.
  - reflexivity.
  - rewrite <- app_comm_cons, !pathLoop_cons. apply IH.
Qed.

Lemma builtFrom_digest (env : Env) (mLogDir : string) (isLogDir : bool)
      (fp : string) (e : modelDef) :
  builtFrom env mLogDir isLogDir fp e -> listsDigest env fp (digestOf e).
Proof.
  intros (dbc & closed & row & ls & _ & Hrow & _ & ->).
  exists closed. rewrite digestOf_newModelDef. now apply in_map.
Qed.

(** C5: when the stores at two discovered paths A < B both contain a
    model of digest D (and no other discovered store lists D), the
    refresh installs exactly one entry of digest D, and that entry is
    built from A: its connection is the one opened on A and its binary
    directory is the directory of A. *)
Theorem C5_first_path_wins (env : Env) (mc : ModelCatalog)
        (mDir mLogDir : string) (w w1 : World) (pathLst : list string)
        (A B D : string) :
  dirUsable env mDir = true ->
  listSqlite env mDir w = (None, pathLst, w1) ->
  In A pathLst -> In B pathLst -> (A <? B)%string = true ->
  containsModel env A D -> containsModel env B D ->
  (forall P, In P pathLst -> listsDigest env P D -> P = A \/ P = B) ->
  exists mc' w' e,
    RefreshSqlite env mc mDir mLogDir w = (None, mc', w') /\
    filter (fun m => (digestOf m =? D)%string) (modelLst mc') = [e] /\
    db.connPath (dbConn e) = A /\
    binDir e = pathDir env A.
Proof.
  intros Hdir Hwalk HA HB Hlt [HgoodA HDA] _ Hothers.
  rewrite RefreshSqlite_unfold, Hdir, Hwalk. cbn [negb].
  set (il := dirUsable env mLogDir).
  assert (HAs : In A (sort.Strings pathLst)) by now apply In_Strings.
  destruct (first_occurrence A _ HAs) as (l1 & l2 & Hsplit & HnA).
  assert (Hle : Forall (fun y => leS y A) l1).
  { apply sorted_prefix_le with (l2 := l2). rewrite <- Hsplit. apply Strings_sorted. }
  assert (Hl1 : forall P, In P l1 -> ~ listsDigest env P D).
  { intros P HP HPD.
    assert (HPin : In P pathLst).
    { apply In_Strings. rewrite Hsplit. apply in_or_app. now left. }
    destruct (Hothers P HPin HPD) as [-> | ->]; [contradiction|].
    rewrite Forall_forall in Hle. eapply ltb_not_leb; [exact Hlt | now apply Hle]. }
  rewrite Hsplit, pathLoop_app, pathLoop_cons.
  destruct (pathLoop_spec env mLogDir il l1 [] w1) as (new1 & H1 & Hb1 & Hnd1 & _).
  simpl app in H1, Hnd1.
  set (r1 := pathLoop env mLogDir il l1 [] w1) in *.
  assert (HnoD : ~ In D (map digestOf new1)).
  { intros Hin. apply in_map_iff in Hin. destruct Hin as (e & He & Hin).
    rewrite Forall_forall in Hb1. destruct (Hb1 e Hin) as (fp & Hfp & Hbuilt).
    apply (Hl1 fp Hfp). rewrite <- He. eapply builtFrom_digest; eassumption. }
  rewrite H1.
  destruct (pathBody_good env mLogDir il A new1 (snd r1) HgoodA)
    as (dbc & ls & w' & Hconn & Hls & HbodyA).
  destruct (dicLoop_spec mLogDir il dbc (pathDir env A) ls
              (fst (dbGetModelList env A false)) new1 w')
    as (newA & HdA & HnewA & HndA & HallA & _).
  rewrite HbodyA, HdA.
  set (wA := snd (pathBody env mLogDir il A new1 (snd r1))).
  assert (HinD : In D (map digestOf newA)).
  { apply in_map_iff in HDA. destruct HDA as (row & Hrow & Hin).
    specialize (HallA row Hin). rewrite Hrow, map_app in HallA.
    apply in_app_or in HallA. destruct HallA; [contradiction | assumption]. }
  apply in_map_iff in HinD. destruct HinD as (e & HeD & HeIn).
  rewrite Forall_forall in HnewA. destruct (HnewA e HeIn) as (row & _ & Herow).
  destruct (pathLoop_spec env mLogDir il l2 (new1 ++ newA) wA)
    as (new2 & H2 & _ & Hnd2 & _).
  do 2 eexists. exists e. split; [reflexivity|]. cbn [modelLst installedBy].
  rewrite H2. split; [|split].
  - apply filter_unique_digest.
    + apply Hnd2, HndA, Hnd1. constructor.
    + apply in_or_app. left. apply in_or_app. now right.
    + exact HeD.
  - rewrite Herow.
    destruct (newModelDef_langCodes mLogDir il dbc (pathDir env A) ls row)
      as (_ & _ & _ & Hc & _).
    now rewrite Hc.
  - rewrite Herow.
    destruct (newModelDef_langCodes mLogDir il dbc (pathDir env A) ls row)
      as (_ & _ & _ & _ & Hd).
    now rewrite Hd.
Qed.

(** ** Walking the model directory *)

Lemma FsNode_nested_ind (P : filepath.FsNode -> Prop) :
  P filepath.File ->
  (forall msg, P (filepath.NoStat msg)) ->
  (forall msg, P (filepath.DirErr msg)) ->
  (forall entries, Forall (fun p => P (snd p)) entries -> P (filepath.Dir entries)) ->
  forall info, P info.
Proof.
  intros HF HN HE HD. fix IH 1.
  intros [|msg|entries|msg]; [exact HF | apply HN | | apply HE].
  apply HD. induction entries as [|[name x] rest IHrest]; constructor.
  - apply IH.
  - exact IHrest.
Qed.


Lemma walkFn_nil (env : Env) (src : string) (pl : list string) (w : World) :
  exists pl', walkFn env src None (pl, w) = (None, (pl', w)).
Proof.
  unfold walkFn. destruct (isSqliteExt env src); eexists; reflexivity.
Qed.

Lemma walkFn_err (env : Env) (src msg : string) (pl : list string) (w : World) :
  walkFn env src (Some (errorString msg)) (pl, w)
  = (Some (errorString msg),
     (pl, logged ["Error at refresh model catalog, path: "; src; " : "; msg] w)).
Proof. reflexivity. Qed.

Lemma walk_outcome (env : Env) (info : filepath.FsNode) :
  forall path, walkOutcome env path info (filepath.firstFailure path info).
Proof.
  induction info as [|msg|msg|entries IH] using FsNode_nested_ind;
    intros path pl w.
  - cbn [filepath.firstFailure filepath.walk]. apply walkFn_nil.
  - cbn [filepath.firstFailure filepath.walk]. exists pl. apply walkFn_err.
  - cbn [filepath.firstFailure filepath.walk]. exists pl. apply walkFn_err.
  - cbn [filepath.firstFailure filepath.walk].
    destruct (walkFn_nil env path pl w) as (pl0 & ->).
    clear pl. revert pl0.
    induction IH as [|[name x] rest Hx _ IHrest]; intros pl.
    + exists pl. reflexivity.
    + cbn [filepath.firstFailureIn filepath.walkNames snd] in *.
      specialize (Hx (filepath.Join path name) pl w).
      destruct (filepath.firstFailure (filepath.Join path name) x) as [[p msg]|].
      * destruct Hx as (pl' & Hx).
        destruct x as [|m|sub|m].
        -- cbn [filepath.walk] in Hx.
           destruct (walkFn_nil env (filepath.Join path name) pl w) as (? & E).
           rewrite E in Hx. discriminate.
        -- cbn [filepath.walk] in Hx. rewrite Hx. cbn [isSkipDir].
           exists pl'. reflexivity.
        -- rewrite Hx. cbn [filepath.IsDir isSkipDir negb orb].
           exists pl'. reflexivity.
        -- rewrite Hx. cbn [filepath.IsDir isSkipDir negb orb].
           exists pl'. reflexivity.
      * destruct Hx as (pl' & Hx).
        destruct x as [|m|sub|m].
        -- rewrite Hx. apply IHrest.
        -- cbn [filepath.walk] in Hx. rewrite walkFn_err in Hx. discriminate.
        -- rewrite Hx. apply IHrest.
        -- cbn [filepath.walk] in Hx. rewrite walkFn_err in Hx. discriminate.
Qed.

Lemma listSqlite_outcome (env : Env) (mDir : string) (w : World) :
  match filepath.firstFailure mDir (lstat env mDir) with
  | Some (p, msg) =>
      exists pl,
        listSqlite env mDir w
        = (Some (errorString msg), pl,
           logged ["Error at refresh model catalog, path: "; p; " : "; msg] w)
  | None => exists pl, listSqlite env mDir w = (None, pl, w)
  end.
Proof.
  unfold listSqlite, filepath.Walk.
  pose proof (walk_outcome env (lstat env mDir) mDir [] w) as H.
  destruct (filepath.firstFailure mDir (lstat env mDir)) as [[p msg]|];
    destruct H as (pl & ->); exists pl; reflexivity.
Qed.

(** C2: (as the code has it) with a usable model directory, the first
    traversal failure of the walk, at the root or at any path below it,
    is logged and makes [RefreshSqlite] return an error with the catalog
    left as it was and no store opened; only a walk without any failure
    lets the refresh go on and return no error. *)
Theorem C2_any_walk_failure_fails_refresh (env : Env) (mc : ModelCatalog)
        (mDir mLogDir : string) (w : World) :
  dirUsable env mDir = true ->
  match filepath.firstFailure mDir (lstat env mDir) with
  | Some (p, msg) =>
      RefreshSqlite env mc mDir mLogDir w
      = (Some (errorsNew "Error: fail to list model directory"), mc,
         logged ["Error: fail to list model directory: "; msg]
                (logged ["Error at refresh model catalog, path: "; p; " : "; msg] w))
  | None => fst (fst (RefreshSqlite env mc mDir mLogDir w)) = None
  end.
Proof.
  intros Hdir. rewrite RefreshSqlite_unfold, Hdir. cbn [negb].
  pose proof (listSqlite_outcome env mDir w) as H.
  destruct (filepath.firstFailure mDir (lstat env mDir)) as [[p msg]|];
    destruct H as (pl & ->); reflexivity.
Qed.

Lemma C2_any_walk_failure_witness :
  RefreshSqlite Demo.env Demo.installed "locked" "" Demo.world1
  = (Some (errorsNew "Error: fail to list model directory"), Demo.installed,
     logged ["Error: fail to list model directory: ";
             "open locked/sub: permission denied"]
            (logged ["Error at refresh model catalog, path: "; "locked/sub";
                     " : "; "open locked/sub: permission denied"] Demo.world1)).
Proof.
  assert (Hdir : dirUsable Demo.env "locked" = true) by (vm_compute; reflexivity).
  exact (C2_any_walk_failure_fails_refresh Demo.env Demo.installed
           "locked" "" Demo.world1 Hdir).
Defined.

(** C2 as it is stated fails: the root "locked" is an existing, readable
    directory and only its sub-directory "sub" cannot be read, yet the
    refresh returns an error. *)
Lemma C2_subpath_failure_counterexample :
  ~ (forall (env : Env) (mc : ModelCatalog) (mDir mLogDir : string) (w : World)
            (entries : list (string * filepath.FsNode)),
        dirUsable env mDir = true ->
        lstat env mDir = filepath.Dir entries ->
        fst (fst (RefreshSqlite env mc mDir mLogDir w)) = None).
Proof.
  intros H.
  specialize (H Demo.env Demo.installed "locked" "" Demo.world1 _
                eq_refl eq_refl).
  vm_compute in H. discriminate H.
Qed.

(** C3: (as the code has it) once the new list of models is built,
    [RefreshSqlite] calls [Close] on the connection of every entry of
    the previous list, in order and whatever the earlier closes
    returned; a close error is only logged, and the refresh installs the
    new list and returns no error. *)
Theorem C3_refresh_closes_every_previous_entry (env : Env) (mc : ModelCatalog)
        (mDir mLogDir : string) (w w1 : World) (pathLst : list string) :
  dirUsable env mDir = true ->
  listSqlite env mDir w = (None, pathLst, w1) ->
  exists mLst w2 w3 evs,
    pathLoop env mLogDir (dirUsable env mLogDir) (sort.Strings pathLst) [] w1
    = (mLst, w2) /\
    RefreshSqlite env mc mDir mLogDir w
    = (None, installedBy mDir mLogDir (dirUsable env mLogDir) mLst, w3) /\
    trace w3 = trace w2 ++ evs /\
    closedConns evs = map dbConn (modelLst mc).
Proof.
  intros Hdir Hwalk.
  rewrite RefreshSqlite_unfold, Hdir, Hwalk. cbn [negb].
  destruct (pathLoop env mLogDir (dirUsable env mLogDir)
                     (sort.Strings pathLst) [] w1) as [mLst w2].
  cbn [fst snd].
  destruct (closeLoop_spec env (modelLst mc) w2) as (evs & Ht & _ & Hcl).
  exists mLst, w2, (snd (closeLoop env (modelLst mc) w2)), evs.
  repeat split; assumption.
Qed.

Lemma C3_refresh_closes_witness :
  exists mLst w2 w3 evs,
    pathLoop Demo.env "logs" (dirUsable Demo.env "logs")
             (sort.Strings ["models/A/model.sqlite"; "models/B/model.SQLite";
                            "models/bad.sqlite"; "models/old.sqlite"])
             [] Demo.world1
    = (mLst, w2) /\
    RefreshSqlite Demo.env Demo.installed "models" "logs" Demo.world1
    = (None, installedBy "models" "logs" (dirUsable Demo.env "logs") mLst, w3) /\
    trace w3 = trace w2 ++ evs /\
    closedConns evs = map dbConn (modelLst Demo.installed).
Proof.
  apply (C3_refresh_closes_every_previous_entry Demo.env Demo.installed
           "models" "logs" Demo.world1 Demo.world1).
  - vm_compute. reflexivity.
  - vm_compute. reflexivity.
Defined.

(** C3 as it is stated fails: closing the connection of the third entry of
    the previous list returns an error, and the refresh still returns no
    error. *)
Lemma C3_close_error_not_returned_counterexample :
  ~ (forall (env : Env) (mc : ModelCatalog) (mDir mLogDir : string) (w : World)
            (dbc : db.Conn) (e : error),
        In dbc (map dbConn (modelLst mc)) ->
        In (EvClose dbc (Some e))
           (skipn (length (trace w))
                  (trace (snd (RefreshSqlite env mc mDir mLogDir w)))) ->
        fst (fst (RefreshSqlite env mc mDir mLogDir w)) <> None).
Proof.
  intros H.
  apply (H Demo.env Demo.installed "models" "logs" Demo.world1
           {| db.connId := 1; db.connPath := "models/B/model.SQLite" |}
           (errorString "disk I/O error")).
  - vm_compute. right. right. left. reflexivity.
  - vm_compute. repeat (first [left; reflexivity | right]).
  - vm_compute. reflexivity.
Qed.

Lemma C5_two_stores_witness :
  exists mc' w' e,
    RefreshSqlite Demo.env Demo.empty "models" "logs" Demo.world0
    = (None, mc', w') /\
    filter (fun m => (digestOf m =? "d-road")%string) (modelLst mc') = [e] /\
    db.connPath (dbConn e) = "models/A/model.sqlite" /\
    binDir e = pathDir Demo.env "models/A/model.sqlite".
Proof.
  apply (C5_first_path_wins Demo.env Demo.empty "models" "logs"
           Demo.world0 Demo.world0
           ["models/A/model.sqlite"; "models/B/model.SQLite";
            "models/bad.sqlite"; "models/old.sqlite"]
           "models/A/model.sqlite" "models/B/model.SQLite" "d-road").
  - vm_compute. reflexivity.
  - vm_compute. reflexivity.
  - simpl. auto.
  - simpl. auto.
  - vm_compute. reflexivity.
  - split; [repeat split; try (vm_compute; congruence) |].
    + exists Demo.enFrDe. reflexivity.
    + vm_compute. left. reflexivity.
  - split; [repeat split; try (vm_compute; congruence) |].
    + exists Demo.enFrDe. reflexivity.
    + vm_compute. left. reflexivity.
  - intros P HP [closed HD].
    simpl in HP. destruct HP as [<-|[<-|[<-|[<-|[]]]]]; auto;
      destruct closed; vm_compute in HD; destruct HD.
Defined.

(** ** A store that fails the schema check *)

Lemma dicLoop_trace (mLogDir : string) (isLogDir : bool) dbc d ls
      (rows : list db.ModelDicRow) :
  forall mLst w,
  exists evs,
    trace (snd (dicLoop dbc d mLogDir isLogDir ls rows mLst w)) = trace w ++ evs.
Proof.
  induction rows as [|row rest IH]; intros mLst w.
  - exists []. simpl. now rewrite app_nil_r.
  - rewrite dicLoop_cons.
    destruct (existsb (fun m => (db.Digest row =? digestOf m)%string) mLst).
    + match goal with |- context [dicLoop _ _ _ _ _ rest mLst ?w1] =>
        destruct (IH mLst w1) as (evs & Ht) end.
      rewrite trace_logged in Ht. rewrite Ht, <- app_assoc.
      eexists. reflexivity.
    + apply IH.
Qed.

(** In every environment, a store that opens and fails the schema check
    has its connection closed and then handed to [db.GetModelList]. *)
Lemma pathBody_schema_failure_trace (env : Env) (mLogDir : string)
      (isLogDir : bool) (fp : string) (mLst : list modelDef) (w : World) :
  dbOpen env fp = None ->
  negb (isNil (snd (dbOpenmppSchemaVersion env fp)))
  || (fst (dbOpenmppSchemaVersion env fp) <? MinSchemaVersion env)%Z = true ->
  exists msg r evs,
    trace (snd (pathBody env mLogDir isLogDir fp mLst w))
    = trace w
      ++ [ EvOpen fp (Some {| db.connId := nextConn w; db.connPath := fp |});
           EvSchemaVersion {| db.connId := nextConn w; db.connPath := fp |};
           EvLog msg;
           EvClose {| db.connId := nextConn w; db.connPath := fp |} r;
           EvGetModelList {| db.connId := nextConn w; db.connPath := fp |} ]
      ++ evs.
Proof.
  intros Hopen Hbad.
  unfold pathBody, bind, Open. rewrite Hopen.
  destruct (dbOpenmppSchemaVersion env fp) as [nv err].
  cbn [fst snd] in Hbad. rewrite Hbad.
  set (dbc := {| db.connId := nextConn w; db.connPath := fp |}).
  unfold bind, ret, Log, emit, connClose. cbn [trace nextConn fst snd].
  destruct (dbGetModelList env fp true) as [dicLst err'].
  destruct (negb (isNil err') || (Z.of_nat (length dicLst) <=? 0)%Z).
  { do 3 eexists. cbn [trace snd]. rewrite <- !app_assoc. cbn [app]. reflexivity. }
  destruct (dbGetLanguages env fp true) as [[ls|] [err''|]];
    try (do 3 eexists; cbn [trace snd]; rewrite <- !app_assoc; cbn [app]; reflexivity).
  match goal with |- context [dicLoop ?a ?b ?c ?d ?e ?f ?g ?w1] =>
    destruct (dicLoop_trace c d a b e f g w1) as (evs & Ht) end.
  rewrite Ht. cbn [trace]. do 3 eexists. rewrite <- !app_assoc. cbn [app]. reflexivity.
Qed.

(** C1: (where the code departs from it) over the directory "legacy",
    whose only store opens but has schema version 0, the refresh logs the
    invalid database and closes the connection, then goes on (there is
    no [continue]) to call [db.GetModelList] on the closed connection
    and to close it a second time. *)
Theorem C1_schema_failure_reads_closed_connection :
  let dbc := {| db.connId := 0; db.connPath := "legacy/old.sqlite" |} in
  RefreshSqlite Demo.env Demo.empty "legacy" "" Demo.world0
  = (None,
     installedBy "legacy" "" false [],
     {| trace :=
          [ EvOpen "legacy/old.sqlite" (Some dbc);
            EvSchemaVersion dbc;
            EvLog "Error: invalid database, likely not an openM++ databaselegacy/old.sqlite";
            EvClose dbc None;
            EvGetModelList dbc;
            EvLog "Warning: empty database, no models found: legacy/old.sqlite";
            EvClose dbc None ];
        nextConn := 1 |})
  /\ usedAfterClose
       (trace (snd (RefreshSqlite Demo.env Demo.empty "legacy" "" Demo.world0)))
     = true.
Proof.
  split; vm_compute; reflexivity.
Qed.

(** ** Look-up by digest *)

Lemma sliceAt_of_nat {A : Type} (s : list A) (i : nat) :
  sliceAt s (Z.of_nat i) = nth_error s i.
Proof.
  unfold sliceAt.
  replace (Z.of_nat i <? 0)%Z with false by (symmetry; apply Z.ltb_ge; lia).
  now rewrite Nat2Z.id.
Qed.

Lemma indexByDigestLoop_found (d : string) (lst : list modelDef) :
  forall k i m,
    nth_error lst i = Some m ->
    digestOf m = d ->
    (forall j m', (j < i)%nat -> nth_error lst j = Some m' -> digestOf m' <> d) ->
    indexByDigestLoop d lst k = ((k + Z.of_nat i)%Z, true).
Proof.
  induction lst as [|x rest IH]; intros k i m Hi Hm Hlt.
  - destruct i; discriminate.
  - destruct i as [|i]; simpl in *.
    + inversion Hi; subst x. rewrite Hm, String.eqb_refl. f_equal. lia.
    + destruct (String.eqb_spec (digestOf x) d) as [E|E].
      * exfalso. apply (Hlt 0%nat x); [lia | reflexivity | exact E].
      * rewrite (IH (k + 1)%Z i m Hi Hm).
        -- f_equal. lia.
        -- intros j m' Hj Hn. apply (Hlt (S j) m'); [lia | exact Hn].
Qed.

Lemma indexByDigestLoop_none (d : string) (lst : list modelDef) :
  forall k,
    ~ In d (map digestOf lst) ->
    indexByDigestLoop d lst k = (0%Z, false).
Proof.
  induction lst as [|x rest IH]; intros k Hn; simpl; [reflexivity|].
  destruct (String.eqb_spec (digestOf x) d) as [E|E].
  - exfalso. apply Hn. now left.
  - apply IH. intros H. apply Hn. now right.
Qed.

(** The first position of a digest in a list of entries. *)
Lemma first_digest (d : string) (lst : list modelDef) :
  In d (map digestOf lst) ->
  exists i m,
    nth_error lst i = Some m /\ digestOf m = d /\
    (forall j m', (j < i)%nat -> nth_error lst j = Some m' -> digestOf m' <> d).
Proof.
  induction lst as [|x rest IH]; intros Hin; [destruct Hin|].
  destruct (String.eqb_spec (digestOf x) d) as [E|E].
  - exists 0%nat, x. repeat split; auto. intros j m' Hj. lia.
  - destruct Hin as [Hx|Hin]; [congruence|].
    destruct (IH Hin) as (i & m & Hi & Hm & Hlt).
    exists (S i), m. repeat split; auto.
    intros [|j] m' Hj Hn; simpl in Hn.
    + inversion Hn; subst. exact E.
    + apply (Hlt j m'); [lia | exact Hn].
Qed.

Lemma indexByDigest_spec (mc : ModelCatalog) (d : string) :
  (snd (indexByDigest mc d) = true <-> In d (map digestOf (modelLst mc)))
  /\ match indexByDigest mc d with
     | (k, true) =>
         exists m, sliceAt (modelLst mc) k = Some m /\ digestOf m = d /\
                   forall j m', (0 <= j < k)%Z ->
                                sliceAt (modelLst mc) j = Some m' ->
                                digestOf m' <> d
     | (k, false) => k = 0%Z
     end.
Proof.
  unfold indexByDigest.
  destruct (in_dec string_dec d (map digestOf (modelLst mc))) as [Hin|Hn].
  - destruct (first_digest d _ Hin) as (i & m & Hi & Hm & Hlt).
    rewrite (indexByDigestLoop_found d _ 0 i m Hi Hm Hlt). simpl.
    split; [tauto|].
    exists m. rewrite sliceAt_of_nat. repeat split; auto.
    intros j m' Hj Hs.
    replace j with (Z.of_nat (Z.to_nat j)) in Hs by lia.
    rewrite sliceAt_of_nat in Hs.
    apply (Hlt (Z.to_nat j) m'); [lia | exact Hs].
  - rewrite (indexByDigestLoop_none d _ 0 Hn). simpl.
    split; [|reflexivity]. split; [discriminate | contradiction].
Qed.

(** X1: [indexByDigest] answers found exactly when some entry carries
    the digest; the index it returns is then in range, is the position
    of the first such entry, and that entry has the digest; when no
    entry has the digest the answer is index 0 with found false. *)
Theorem X1_indexByDigest_sound_complete (mc : ModelCatalog) (d : string) :
  (snd (indexByDigest mc d) = true <-> In d (map digestOf (modelLst mc)))
  /\ match indexByDigest mc d with
     | (k, true) =>
         exists m, sliceAt (modelLst mc) k = Some m /\ digestOf m = d /\
                   forall j m', (0 <= j < k)%Z ->
                                sliceAt (modelLst mc) j = Some m' ->
                                digestOf m' <> d
     | (k, false) => k = 0%Z
     end.
Proof. exact (indexByDigest_spec mc d). Qed.

(** X2: when some entry carries the token as its digest,
    [indexByDigestOrName] and [indexByDigest] return the same index. *)
Theorem X2_indexByDigestOrName_agrees_with_indexByDigest
        (mc : ModelCatalog) (dn : string) :
  In dn (map digestOf (modelLst mc)) ->
  indexByDigestOrName mc dn = indexByDigest mc dn.
Proof.
  intros Hin.
  destruct (first_digest dn _ Hin) as (i & m & Hi & Hm & Hlt).
  unfold indexByDigestOrName, indexByDigest.
  rewrite (indexLoop_digest dn _ 0 (-1) i m Hi Hm Hlt).
  now rewrite (indexByDigestLoop_found dn _ 0 i m Hi Hm Hlt).
Qed.

Lemma X2_indexByDigestOrName_agrees_witness :
  indexByDigestOrName Demo.installed "d-lake" = indexByDigest Demo.installed "d-lake".
Proof.
  apply (X2_indexByDigestOrName_agrees_with_indexByDigest Demo.installed "d-lake").
  vm_compute. right. right. left. reflexivity.
Defined.

Lemma sliceAt_some_nonneg {A : Type} (s : list A) (i : Z) (x : A) :
  sliceAt s i = Some x -> (0 <= i)%Z /\ nth_error s (Z.to_nat i) = Some x.
Proof.
  unfold sliceAt. destruct (i <? 0)%Z eqn:E; [discriminate|].
  apply Z.ltb_ge in E. auto.
Qed.

Lemma sliceAt_length {A : Type} (pre rest : list A) (x : A) :
  sliceAt (pre ++ x :: rest) (Z.of_nat (length pre)) = Some x.
Proof.
  rewrite sliceAt_of_nat, nth_error_app2 by lia.
  now rewrite Nat.sub_diag.
Qed.

Lemma sliceAt_app_l {A : Type} (pre rest : list A) (i : Z) (x : A) :
  sliceAt pre i = Some x -> sliceAt (pre ++ rest) i = Some x.
Proof.
  intros H. destruct (sliceAt_some_nonneg _ _ _ H) as [Hi Hn].
  unfold sliceAt. replace (i <? 0)%Z with false by (symmetry; apply Z.ltb_ge; lia).
  rewrite nth_error_app1; [exact Hn|].
  apply nth_error_Some. congruence.
Qed.

(** The pass of [indexByDigestOrName], started after the entries [pre]
    with [n] either -1 or the index of an entry of [pre] named [dn]. *)
Lemma indexLoop_sound (dn : string) (lst : list modelDef) :
  forall pre k n,
    k = Z.of_nat (length pre) ->
    (n = (-1)%Z \/ exists m, sliceAt pre n = Some m /\ nameOf m = dn) ->
    match indexLoop dn lst k n with
    | (i, true) =>
        exists m, sliceAt (pre ++ lst) i = Some m /\
                  (digestOf m = dn \/ nameOf m = dn)
    | (i, false) =>
        i = 0%Z /\ n = (-1)%Z /\
        forall m, In m lst -> digestOf m <> dn /\ nameOf m <> dn
    end.
Proof.
  induction lst as [|x rest IH]; intros pre k n Hk Hn.
  - simpl. destruct Hn as [-> | (m & Hs & Hm)].
    + simpl. split; [reflexivity | split; [reflexivity | intros m0 []]].
    + destruct (sliceAt_some_nonneg _ _ _ Hs) as [Hge _].
      replace (n >=? 0)%Z with true by (symmetry; apply Z.geb_le; lia).
      exists m. rewrite app_nil_r. auto.
  - simpl. destruct (String.eqb_spec (digestOf x) dn) as [E|E].
    + exists x. subst k. rewrite sliceAt_length. auto.
    + set (n' := if (n <? 0)%Z && (nameOf x =? dn)%string then k else n).
      assert (Hn' : n' = (-1)%Z \/
                    exists m, sliceAt (pre ++ [x]) n' = Some m /\ nameOf m = dn).
      { unfold n'. destruct Hn as [-> | (m & Hs & Hm)].
        - simpl. destruct (String.eqb_spec (nameOf x) dn) as [En|En].
          + right. exists x. subst k. rewrite sliceAt_length. auto.
          + now left.
        - destruct (sliceAt_some_nonneg _ _ _ Hs) as [Hge _].
          replace (n <? 0)%Z with false by (symmetry; apply Z.ltb_ge; lia).
          simpl. right. exists m. split; [now apply sliceAt_app_l | exact Hm]. }
      assert (Hk' : (k + 1)%Z = Z.of_nat (length (pre ++ [x]))).
      { rewrite length_app. simpl. lia. }
      specialize (IH (pre ++ [x]) (k + 1)%Z n' Hk' Hn').
      rewrite <- app_assoc in IH. simpl in IH.
      destruct (indexLoop dn rest (k + 1) n') as [i [|]]; [exact IH|].
      destruct IH as (Hi & Hneg & Hrest).
      assert (Hcase : n = (-1)%Z /\ nameOf x <> dn).
      { unfold n' in Hneg.
        destruct (n <? 0)%Z eqn:Hlt; simpl in Hneg.
        - destruct (String.eqb_spec (nameOf x) dn) as [En|En]; [lia|].
          destruct Hn as [-> | (m & Hs & _)]; [auto|].
          destruct (sliceAt_some_nonneg _ _ _ Hs) as [Hge _].
          apply Z.ltb_lt in Hlt. lia.
        - apply Z.ltb_ge in Hlt. lia. }
      destruct Hcase as [Hm1 Hname].
      split; [exact Hi | split; [exact Hm1 |]].
      intros m [<- | Hin]; [auto | now apply Hrest].
Qed.

(** X3: an index [indexByDigestOrName] returns as found is in range,
    and the entry there has the token as its digest or as its name;
    not-found (index 0, false) is returned only when no entry has the
    token as digest or name. *)
Theorem X3_indexByDigestOrName_in_range (mc : ModelCatalog) (dn : string) :
  match indexByDigestOrName mc dn with
  | (k, true) =>
      exists m, sliceAt (modelLst mc) k = Some m /\
                (digestOf m = dn \/ nameOf m = dn)
  | (k, false) =>
      k = 0%Z /\
      forall m, In m (modelLst mc) -> digestOf m <> dn /\ nameOf m <> dn
  end.
Proof.
  unfold indexByDigestOrName.
  pose proof (indexLoop_sound dn (modelLst mc) [] 0 (-1) eq_refl (or_introl eq_refl)) as H.
  simpl in H.
  destruct (indexLoop dn (modelLst mc) 0 (-1)) as [i [|]]; [exact H|].
  destruct H as (Hi & _ & Hall). auto.
Qed.

(** ** The snapshots of the catalog *)

Lemma sliceSet_at_length {A : Type} (l1 l2 : list A) (y x : A) :
  sliceSet (l1 ++ y :: l2) (length l1) x = Some (l1 ++ x :: l2).
Proof.
  induction l1 as [|h l1 IH]; simpl; [reflexivity | now rewrite IH].
Qed.

Lemma rangeFill_from {A B : Type} (f : A -> B) (z : B) (todo : list A) :
  forall done,
    rangeFill f (done ++ todo) (seq (length done) (length todo))
              (map f done ++ repeat z (length todo))
    = Some (map f (done ++ todo)).
Proof.
  induction todo as [|x todo IH]; intros done.
  - simpl. now rewrite !app_nil_r.
  - cbn [length seq repeat rangeFill].
    rewrite nth_error_app2 by lia. rewrite Nat.sub_diag. cbn [nth_error].
    rewrite <- (length_map f done) at 1. rewrite sliceSet_at_length.
    specialize (IH (done ++ [x])).
    rewrite <- app_assoc, length_app, map_app, <- app_assoc in IH.
    cbn [app length map] in IH.
    rewrite Nat.add_1_r in IH. exact IH.
Qed.

Lemma rangeFill_all {A B : Type} (f : A -> B) (z : B) (src : list A) :
  rangeFill f src (seq 0 (length src)) (repeat z (length src))
  = Some (map f src).
Proof. exact (rangeFill_from f z src []). Qed.

(** X4: [allModelDigests] never fails on an index and returns the
    digest of every entry, in the order of the catalog. *)
Theorem X4_allModelDigests_lists_every_digest (mc : ModelCatalog) :
  allModelDigests mc = Some (map digestOf (modelLst mc)).
Proof. unfold allModelDigests. apply rangeFill_all. Qed.

Lemma allModels_eq (mc : ModelCatalog) :
  allModels mc = Some (map basicOf (modelLst mc)).
Proof. unfold allModels. apply rangeFill_all. Qed.

(** X5: [allModels] never fails on an index and returns one record per
    entry, in the order of the catalog, with the entry's name, digest,
    directories and log flag; its digests are those of
    [allModelDigests]. *)
Theorem X5_allModels_lists_every_entry (mc : ModelCatalog) :
  allModels mc = Some (map basicOf (modelLst mc))
  /\ option_map (map basic.digest) (allModels mc) = allModelDigests mc
  /\ option_map (@length _) (allModels mc) = Some (length (modelLst mc)).
Proof.
  rewrite allModels_eq. unfold allModelDigests. rewrite rangeFill_all. simpl.
  rewrite map_map, length_map. repeat split.
Qed.

(** X6: [modelBasicByDigest] never fails on an index; it answers found
    exactly when some entry carries the digest, and then returns the
    record of an entry of the catalog with that digest, one that
    [allModels] lists too; otherwise it returns the empty record and
    false. *)
Theorem X6_modelBasicByDigest_total_and_sound (mc : ModelCatalog) (d : string) :
  exists mb ok,
    modelBasicByDigest mc d = Some (mb, ok) /\
    (ok = true <-> In d (map digestOf (modelLst mc))) /\
    if ok
    then basic.digest mb = d /\ In mb (map basicOf (modelLst mc))
    else mb = basic.zero.
Proof.
  unfold modelBasicByDigest.
  destruct (indexByDigest_spec mc d) as [Hiff Hres].
  destruct (indexByDigest mc d) as [k [|]]; simpl in *.
  - destruct Hres as (m & Hs & Hm & _). rewrite Hs.
    exists (basicOf m), true.
    split; [reflexivity | split; [exact Hiff | split; [exact Hm|]]].
    apply in_map. destruct (sliceAt_some_nonneg _ _ _ Hs) as [_ Hn].
    eapply nth_error_In; eassumption.
  - exists basic.zero, false.
    split; [reflexivity | split; [exact Hiff | reflexivity]].
Qed.

(** ** The catalog after a refresh *)

(** A refresh that returns no error went through the walk and installed
    the list built from the sorted paths. *)
Lemma RefreshSqlite_success (env : Env) (mc mc' : ModelCatalog)
      (mDir mLogDir : string) (w w' : World) :
  RefreshSqlite env mc mDir mLogDir w = (None, mc', w') ->
  exists pathLst w1,
    dirUsable env mDir = true /\
    listSqlite env mDir w = (None, pathLst, w1) /\
    mc' = installedBy mDir mLogDir (dirUsable env mLogDir)
            (fst (pathLoop env mLogDir (dirUsable env mLogDir)
                           (sort.Strings pathLst) [] w1)) /\
    w' = snd (closeLoop env (modelLst mc)
                (snd (pathLoop env mLogDir (dirUsable env mLogDir)
                               (sort.Strings pathLst) [] w1))).
Proof.
  rewrite RefreshSqlite_unfold.
  destruct (dirUsable env mDir) eqn:Hd; cbn [negb]; [|discriminate].
  destruct (listSqlite env mDir w) as [[[e|] pathLst] w1]; [discriminate|].
  intros H. inversion H; subst. exists pathLst, w1. auto.
Qed.

Lemma RefreshSqlite_failure (env : Env) (mc mc' : ModelCatalog)
      (mDir mLogDir : string) (w w' : World) (e : error) :
  RefreshSqlite env mc mDir mLogDir w = (Some e, mc', w') -> mc' = mc.
Proof.
  rewrite RefreshSqlite_unfold.
  destruct (dirUsable env mDir); cbn [negb].
  - destruct (listSqlite env mDir w) as [[[e'|] pathLst] w1];
      intros H; inversion H; reflexivity.
  - intros H; inversion H; reflexivity.
Qed.

Lemma RefreshSqlite_unique (env : Env) (mc mc' : ModelCatalog)
      (mDir mLogDir : string) (w w' : World) :
  RefreshSqlite env mc mDir mLogDir w = (None, mc', w') ->
  NoDup (map digestOf (modelLst mc')).
Proof.
  intros H.
  destruct (RefreshSqlite_success _ _ _ _ _ _ _ H) as (pl & w1 & _ & _ & -> & _).
  destruct (pathLoop_spec env mLogDir (dirUsable env mLogDir)
              (sort.Strings pl) [] w1) as (new & Hf & _ & Hnd & _).
  cbn [modelLst installedBy]. rewrite Hf. apply Hnd. constructor.
Qed.

Lemma nth_error_unique_digest (lst : list modelDef) (i j : nat) (m m' : modelDef) :
  NoDup (map digestOf lst) ->
  nth_error lst i = Some m -> nth_error lst j = Some m' ->
  digestOf m = digestOf m' -> i = j.
Proof.
  intros Hnd Hi Hj He.
  apply (proj1 (NoDup_nth_error (map digestOf lst)) Hnd).
  - rewrite length_map. apply nth_error_Some. congruence.
  - rewrite !nth_error_map, Hi, Hj. simpl. now rewrite He.
Qed.

(** X7: after a refresh that returned no error, the digest of the entry
    at position [i] leads back to that entry: [indexByDigest] and
    [indexByDigestOrName] both return [i], and [modelBasicByDigest]
    returns the record of that very entry. *)
Theorem X7_refresh_then_lookup_round_trip (env : Env) (mc mc' : ModelCatalog)
        (mDir mLogDir : string) (w w' : World) (i : nat) (m : modelDef) :
  RefreshSqlite env mc mDir mLogDir w = (None, mc', w') ->
  nth_error (modelLst mc') i = Some m ->
  indexByDigest mc' (digestOf m) = (Z.of_nat i, true)
  /\ indexByDigestOrName mc' (digestOf m) = (Z.of_nat i, true)
  /\ modelBasicByDigest mc' (digestOf m) = Some (basicOf m, true).
Proof.
  intros Href Hi.
  pose proof (RefreshSqlite_unique _ _ _ _ _ _ _ Href) as Hnd.
  assert (Hfirst : forall j m', (j < i)%nat -> nth_error (modelLst mc') j = Some m' ->
                                digestOf m' <> digestOf m).
  { intros j m' Hj Hn He.
    pose proof (nth_error_unique_digest _ _ _ _ _ Hnd Hn Hi He). lia. }
  assert (Hidx : indexByDigest mc' (digestOf m) = (Z.of_nat i, true)).
  { unfold indexByDigest.
    now rewrite (indexByDigestLoop_found _ _ 0 i m Hi eq_refl Hfirst). }
  split; [exact Hidx | split].
  - unfold indexByDigestOrName.
    now rewrite (indexLoop_digest _ _ 0 (-1) i m Hi eq_refl Hfirst).
  - unfold modelBasicByDigest. rewrite Hidx. cbn [negb].
    now rewrite sliceAt_of_nat, Hi.
Qed.

Lemma X7_refresh_then_lookup_witness :
  indexByDigest Demo.installed "d-lake" = (2%Z, true)
  /\ indexByDigestOrName Demo.installed "d-lake" = (2%Z, true)
  /\ modelBasicByDigest Demo.installed "d-lake"
     = Some (basicOf (nth 2 (modelLst Demo.installed) Demo.dummy), true).
Proof.
  apply (X7_refresh_then_lookup_round_trip Demo.env Demo.empty Demo.installed
           "models" "logs" Demo.world0 Demo.world1 2
           (nth 2 (modelLst Demo.installed) Demo.dummy)).
  - vm_compute. reflexivity.
  - vm_compute. reflexivity.
Defined.

Lemma dirUsable_true_iff (env : Env) (dir : string) :
  dirUsable env dir = true
  <-> dir <> "" /\ dir <> "." /\ isDirExist env dir = None.
Proof.
  unfold dirUsable.
  destruct (String.eqb_spec dir "") as [E1|E1];
    destruct (String.eqb_spec dir ".") as [E2|E2]; simpl;
    try (split; [discriminate | intros (H1 & H2 & _); congruence]).
  destruct (isDirExist env dir); simpl; split; auto; try discriminate.
  intros (_ & _ & H). discriminate.
Qed.

(** X8: after a refresh that returned no error the catalog reports the
    directories it was called with: [getModelDir] gives the model
    directory and true, and that directory is non-empty, is not "." and
    exists; [getModelLogDir] gives the log directory, enabled exactly
    when it is non-empty, not "." and exists; [toPublicConfig] shows the
    same values.  After a refresh that returned an error the three
    queries answer as before. *)
Theorem X8_refresh_sets_directory_configuration (env : Env) (mc : ModelCatalog)
        (mDir mLogDir : string) (w : World) :
  match RefreshSqlite env mc mDir mLogDir w with
  | (None, mc', _) =>
      getModelDir mc' = (mDir, true)
      /\ (mDir <> "" /\ mDir <> "." /\ isDirExist env mDir = None)
      /\ fst (getModelLogDir mc') = mLogDir
      /\ (snd (getModelLogDir mc') = true
          <-> mLogDir <> "" /\ mLogDir <> "." /\ isDirExist env mLogDir = None)
      /\ toPublicConfig mc'
         = {| ModelDir := mDir; ModelLogDir := mLogDir;
              IsLogDirEnabled := snd (getModelLogDir mc') |}
  | (Some _, mc', _) =>
      getModelDir mc' = getModelDir mc
      /\ getModelLogDir mc' = getModelLogDir mc
      /\ toPublicConfig mc' = toPublicConfig mc
  end.
Proof.
  rewrite RefreshSqlite_unfold.
  destruct (dirUsable env mDir) eqn:Hd; cbn [negb]; [|auto].
  destruct (listSqlite env mDir w) as [[[e|] pathLst] w1]; [auto|].
  cbn [getModelDir getModelLogDir toPublicConfig installedBy modelDir
       isDirEnabled modelLogDir isLogDirEnabled fst snd].
  split; [reflexivity|]. split; [now apply dirUsable_true_iff|].
  split; [reflexivity|]. split; [apply dirUsable_true_iff | reflexivity].
Qed.

(** X9: [Close] keeps the directory configuration ([getModelDir],
    [getModelLogDir] and [toPublicConfig] answer as before) and leaves
    nothing to find: the two snapshots are empty and every look-up, by
    digest or by name, reports not-found. *)
Theorem X9_close_keeps_configuration_and_empties_queries
        (env : Env) (mc : ModelCatalog) (w : World) (token : string) :
  getModelDir (snd (fst (Close env mc w))) = getModelDir mc
  /\ getModelLogDir (snd (fst (Close env mc w))) = getModelLogDir mc
  /\ toPublicConfig (snd (fst (Close env mc w))) = toPublicConfig mc
  /\ allModelDigests (snd (fst (Close env mc w))) = Some []
  /\ allModels (snd (fst (Close env mc w))) = Some []
  /\ indexByDigest (snd (fst (Close env mc w))) token = (0%Z, false)
  /\ indexByDigestOrName (snd (fst (Close env mc w))) token = (0%Z, false)
  /\ modelBasicByDigest (snd (fst (Close env mc w))) token
     = Some (basic.zero, false).
Proof.
  unfold Close, bind, ret.
  destruct (closeFirstErr env (modelLst mc) None w) as [r w1].
  cbn [fst snd]. repeat split.
Qed.

(** ** What every entry of a refreshed catalog satisfies *)

Lemma newModelDef_fields mLogDir il dbc d ls row :
  logDir (newModelDef dbc d mLogDir il ls row) = mLogDir
  /\ isLogDir (newModelDef dbc d mLogDir il ls row) = il
  /\ isMetaFull (newModelDef dbc d mLogDir il ls row) = false
  /\ matcher (newModelDef dbc d mLogDir il ls row)
     = langCodes (newModelDef dbc d mLogDir il ls row).
Proof.
  unfold newModelDef. rewrite langLoop_defaultFirst. repeat split.
Qed.

(** X10: after a refresh that returned no error every entry carries the
    log directory and the log flag of the catalog, is marked as not
    fully loaded, has as binary directory the directory of the store
    file it was read from, and has a matcher built from its language
    codes in their order. *)
Theorem X10_refreshed_entries_agree_with_catalog (env : Env) (mc : ModelCatalog)
        (mDir mLogDir : string) (w : World) :
  match RefreshSqlite env mc mDir mLogDir w with
  | (None, mc', _) =>
      Forall (fun e =>
                logDir e = modelLogDir mc'
                /\ isLogDir e = isLogDirEnabled mc'
                /\ isMetaFull e = false
                /\ binDir e = pathDir env (storeOf e)
                /\ matcher e = langCodes e)
             (modelLst mc')
  | (Some _, mc', _) => mc' = mc
  end.
Proof.
  rewrite RefreshSqlite_unfold.
  destruct (dirUsable env mDir); cbn [negb]; [|reflexivity].
  destruct (listSqlite env mDir w) as [[[e|] pathLst] w1]; [reflexivity|].
  destruct (pathLoop_spec env mLogDir (dirUsable env mLogDir)
              (sort.Strings pathLst) [] w1) as (new & Hf & Hb & _ & _).
  cbn [modelLst installedBy modelLogDir isLogDirEnabled]. rewrite Hf. simpl.
  eapply Forall_impl; [|exact Hb].
  intros m (fp & _ & dbc & closed & row & ls & Hp & _ & _ & ->).
  destruct (newModelDef_fields mLogDir (dirUsable env mLogDir) dbc
              (pathDir env fp) ls row) as (H1 & H2 & H3 & H4).
  destruct (newModelDef_langCodes mLogDir (dirUsable env mLogDir) dbc
              (pathDir env fp) ls row) as (_ & _ & _ & Hc & Hd).
  unfold storeOf. rewrite H1, H2, H3, H4, Hc, Hd, Hp. repeat split.
Qed.

(** ** No model of a good store is lost *)

Lemma pathLoop_keeps (env : Env) (mLogDir : string) (il : bool)
      (pathLst : list string) (mLst : list modelDef) (w : World) (D : string) :
  In D (map digestOf mLst) ->
  In D (map digestOf (fst (pathLoop env mLogDir il pathLst mLst w))).
Proof.
  intros Hin.
  destruct (pathLoop_spec env mLogDir il pathLst mLst w) as (new & Hf & _).
  rewrite Hf, map_app. apply in_or_app. now left.
Qed.

Lemma pathLoop_complete (env : Env) (mLogDir : string) (il : bool)
      (fp D : string) (pathLst : list string) :
  forall mLst w,
    In fp pathLst -> containsModel env fp D ->
    In D (map digestOf (fst (pathLoop env mLogDir il pathLst mLst w))).
Proof.
  induction pathLst as [|p rest IH]; intros mLst w Hin Hc; [destruct Hin|].
  rewrite pathLoop_cons.
  destruct (String.eqb_spec p fp) as [->|Hne].
  - apply pathLoop_keeps.
    destruct Hc as [Hgood HD].
    destruct (pathBody_good env mLogDir il fp mLst w Hgood)
      as (dbc & ls & w' & _ & _ & Hbody).
    destruct (dicLoop_spec mLogDir il dbc (pathDir env fp) ls
                (fst (dbGetModelList env fp false)) mLst w')
      as (new & Hd & _ & _ & Hall & _).
    rewrite Hbody, Hd.
    apply in_map_iff in HD. destruct HD as (row & <- & Hrow).
    now apply Hall.
  - destruct Hin as [E|Hin]; [congruence|]. now apply IH.
Qed.

(** X11: when the walk succeeds, every model of every discovered good
    store (one that opens, passes the schema check and lists models and
    languages) is in the refreshed catalog: its digest is carried by an
    entry, so [indexByDigest] finds it. *)
Theorem X11_refresh_loses_no_model (env : Env) (mc : ModelCatalog)
        (mDir mLogDir : string) (w w1 : World) (pathLst : list string)
        (fp D : string) :
  dirUsable env mDir = true ->
  listSqlite env mDir w = (None, pathLst, w1) ->
  In fp pathLst ->
  containsModel env fp D ->
  exists mc' w',
    RefreshSqlite env mc mDir mLogDir w = (None, mc', w')
    /\ In D (map digestOf (modelLst mc'))
    /\ snd (indexByDigest mc' D) = true.
Proof.
  intros Hdir Hwalk Hin Hc.
  rewrite RefreshSqlite_unfold, Hdir, Hwalk. cbn [negb].
  do 2 eexists. split; [reflexivity|].
  assert (HD : In D (map digestOf
                       (fst (pathLoop env mLogDir (dirUsable env mLogDir)
                                      (sort.Strings pathLst) [] w1)))).
  { apply pathLoop_complete with (fp := fp); [|exact Hc].
    now apply In_Strings. }
  cbn [modelLst installedBy]. split; [exact HD|].
  now apply (indexByDigest_spec _ D).
Qed.

Lemma X11_no_model_lost_witness :
  exists mc' w',
    RefreshSqlite Demo.env Demo.empty "models" "logs" Demo.world0 = (None, mc', w')
    /\ In "d-lake" (map digestOf (modelLst mc'))
    /\ snd (indexByDigest mc' "d-lake") = true.
Proof.
  apply (X11_refresh_loses_no_model Demo.env Demo.empty "models" "logs"
           Demo.world0 Demo.world0
           ["models/A/model.sqlite"; "models/B/model.SQLite";
            "models/bad.sqlite"; "models/old.sqlite"]
           "models/B/model.SQLite" "d-lake").
  - vm_compute. reflexivity.
  - vm_compute. reflexivity.
  - simpl. auto.
  - split; [repeat split; try (vm_compute; congruence) |].
    + exists Demo.enFrDe. reflexivity.
    + vm_compute. right. left. reflexivity.
Defined.

(** ** The paths the walk collects *)

Lemma walkFn_nil_eq (env : Env) (src : string) (pl : list string) (w : World) :
  walkFn env src None (pl, w)
  = (None, (pl ++ filter (isSqliteExt env) [src], w)).
Proof.
  unfold walkFn. simpl. destruct (isSqliteExt env src); [reflexivity|].
  now rewrite app_nil_r.
Qed.

Lemma walk_visited (env : Env) (info : filepath.FsNode) :
  forall path pl w,
    filepath.firstFailure path info = None ->
    filepath.walk path info (walkFn env) (pl, w)
    = (None, (pl ++ filter (isSqliteExt env) (visited path info), w)).
Proof.
  induction info as [|msg|msg|entries IH] using FsNode_nested_ind;
    intros path pl w Hff.
  - cbn [filepath.walk visited]. apply walkFn_nil_eq.
  - discriminate.
  - discriminate.
  - cbn [filepath.firstFailure] in Hff. cbn [filepath.walk visited].
    rewrite walkFn_nil_eq.
    set (below := visitedIn (fun filename fileInfo => visited filename fileInfo)
                            path entries).
    assert (Hc : pl ++ filter (isSqliteExt env) (path :: below)
                 = (pl ++ filter (isSqliteExt env) [path])
                     ++ filter (isSqliteExt env) below)
      by (rewrite <- app_assoc; f_equal; simpl;
          destruct (isSqliteExt env path); reflexivity).
    rewrite Hc. clear Hc. subst below.
    generalize (pl ++ filter (isSqliteExt env) [path]). clear pl.
    induction IH as [|[name x] rest Hx _ IHrest]; intros pl.
    + simpl. now rewrite app_nil_r.
    + cbn [filepath.firstFailureIn filepath.walkNames visitedIn snd] in *.
      destruct (filepath.firstFailure (filepath.Join path name) x) eqn:Hfx;
        [discriminate|].
      specialize (Hx (filepath.Join path name) pl w Hfx).
      rewrite filter_app, app_assoc.
      destruct x as [|m|sub|m]; try discriminate.
      * rewrite Hx. now apply IHrest.
      * rewrite Hx. now apply IHrest.
Qed.

Lemma listSqlite_visited (env : Env) (mDir : string) (w : World) :
  filepath.firstFailure mDir (lstat env mDir) = None ->
  listSqlite env mDir w
  = (None, filter (isSqliteExt env) (visited mDir (lstat env mDir)), w).
Proof.
  intros Hff. unfold listSqlite, filepath.Walk.
  now rewrite (walk_visited env (lstat env mDir) mDir [] w Hff).
Qed.

(** X12: when the walk of the model directory meets no failure,
    [RefreshSqlite] probes exactly the visited paths whose extension is
    .sqlite: the root, directories and files alike, each listed once per
    visit, in the order of the walk, nothing is logged by the walk, and
    every path it lists has that extension. *)
Theorem X12_walk_lists_sqlite_paths (env : Env) (mDir : string) (w : World) :
  filepath.firstFailure mDir (lstat env mDir) = None ->
  listSqlite env mDir w
  = (None, filter (isSqliteExt env) (visited mDir (lstat env mDir)), w).
Proof. exact (listSqlite_visited env mDir w). Qed.

Lemma X12_walk_lists_witness :
  listSqlite Demo.env "models" Demo.world0
  = (None,
     filter (isSqliteExt Demo.env) (visited "models" (lstat Demo.env "models")),
     Demo.world0).
Proof.
  apply (X12_walk_lists_sqlite_paths Demo.env "models" Demo.world0).
  vm_compute. reflexivity.
Defined.

Lemma listSqlite_success (env : Env) (mDir : string) (w w1 : World)
      (pathLst : list string) :
  listSqlite env mDir w = (None, pathLst, w1) ->
  pathLst = filter (isSqliteExt env) (visited mDir (lstat env mDir)) /\ w1 = w.
Proof.
  intros H.
  pose proof (listSqlite_outcome env mDir w) as Ho.
  destruct (filepath.firstFailure mDir (lstat env mDir)) as [[p msg]|] eqn:Hff.
  - destruct Ho as (pl & Ho). rewrite Ho in H. discriminate.
  - rewrite (listSqlite_visited env mDir w Hff) in H.
    inversion H. auto.
Qed.

(** ** Where the entries come from, and in which order *)

Lemma builtFrom_store (env : Env) (mLogDir : string) (il : bool)
      (fp : string) (e : modelDef) :
  builtFrom env mLogDir il fp e -> storeOf e = fp.
Proof.
  intros (dbc & closed & row & ls & Hp & _ & _ & ->).
  unfold storeOf.
  destruct (newModelDef_langCodes mLogDir il dbc (pathDir env fp) ls row)
    as (_ & _ & _ & Hc & _).
  now rewrite Hc.
Qed.

(** X13: after a refresh that returned no error every entry comes from
    a path the walk visited under the model directory, a path with the
    .sqlite extension, and its digest is one the store at that path
    lists. *)
Theorem X13_entries_come_from_discovered_stores (env : Env) (mc : ModelCatalog)
        (mDir mLogDir : string) (w : World) :
  match RefreshSqlite env mc mDir mLogDir w with
  | (None, mc', _) =>
      Forall (fun e =>
                In (storeOf e) (visited mDir (lstat env mDir))
                /\ isSqliteExt env (storeOf e) = true
                /\ listsDigest env (storeOf e) (digestOf e))
             (modelLst mc')
  | (Some _, mc', _) => mc' = mc
  end.
Proof.
  rewrite RefreshSqlite_unfold.
  destruct (dirUsable env mDir); cbn [negb]; [|reflexivity].
  destruct (listSqlite env mDir w) as [[[e|] pathLst] w1] eqn:Hwalk;
    [reflexivity|].
  destruct (listSqlite_success _ _ _ _ _ Hwalk) as [Hpl _].
  destruct (pathLoop_spec env mLogDir (dirUsable env mLogDir)
              (sort.Strings pathLst) [] w1) as (new & Hf & Hb & _ & _).
  cbn [modelLst installedBy]. rewrite Hf. simpl.
  eapply Forall_impl; [|exact Hb].
  intros m (fp & Hfp & Hbuilt).
  rewrite (builtFrom_store _ _ _ _ _ Hbuilt).
  apply (proj1 (In_Strings _ _)) in Hfp. rewrite Hpl in Hfp.
  apply filter_In in Hfp.
  destruct Hfp as [Hv Hext].
  repeat split; auto. eapply builtFrom_digest; eassumption.
Qed.

Lemma leS_refl (s : string) : leS s s.
Proof.
  unfold leS. destruct (String.leb_total s s); assumption.
Qed.

Lemma StronglySorted_app_leS (l1 l2 : list string) :
  StronglySorted leS l1 -> StronglySorted leS l2 ->
  (forall a b, In a l1 -> In b l2 -> leS a b) ->
  StronglySorted leS (l1 ++ l2).
Proof.
  induction 1 as [|a l1 Hs IH Ha]; intros H2 Hcross; simpl; [exact H2|].
  constructor.
  - apply IH; [exact H2|]. intros x y Hx Hy. apply Hcross; [now right | exact Hy].
  - apply Forall_app. split; [exact Ha|].
    apply Forall_forall. intros y Hy. apply Hcross; [now left | exact Hy].
Qed.

Lemma StronglySorted_all_equal (p : string) (l : list string) :
  Forall (fun s => s = p) l -> StronglySorted leS l.
Proof.
  induction 1 as [|s l Hs Hall IH]; constructor; [exact IH|].
  subst s. eapply Forall_impl; [|exact Hall].
  intros a ->. apply leS_refl.
Qed.

Lemma pathLoop_order (env : Env) (mLogDir : string) (il : bool)
      (pathLst : list string) :
  forall mLst w,
    StronglySorted leS pathLst ->
    exists new,
      fst (pathLoop env mLogDir il pathLst mLst w) = mLst ++ new /\
      StronglySorted leS (map storeOf new) /\
      Forall (fun e => In (storeOf e) pathLst) new.
Proof.
  induction pathLst as [|fp rest IH]; intros mLst w Hs.
  - exists []. simpl. rewrite app_nil_r. repeat constructor.
  - inversion Hs as [|? ? Hrest Hfp]; subst.
    rewrite pathLoop_cons.
    destruct (pathBody_spec env mLogDir il fp mLst w) as (new1 & H1 & Hb1 & _).
    rewrite H1.
    destruct (IH (mLst ++ new1) (snd (pathBody env mLogDir il fp mLst w)) Hrest)
      as (new2 & H2 & Hs2 & Hin2).
    exists (new1 ++ new2). rewrite H2, <- app_assoc.
    assert (Hst1 : Forall (fun s => s = fp) (map storeOf new1)).
    { apply Forall_forall. intros s Hin. apply in_map_iff in Hin.
      destruct Hin as (e & <- & He). rewrite Forall_forall in Hb1.
      eapply builtFrom_store. now apply Hb1. }
    split; [reflexivity | split].
    + rewrite map_app. apply StronglySorted_app_leS.
      * now apply StronglySorted_all_equal with (p := fp).
      * exact Hs2.
      * intros a b Ha Hb. rewrite Forall_forall in Hst1. rewrite (Hst1 a Ha).
        apply in_map_iff in Hb. destruct Hb as (e & <- & He).
        rewrite Forall_forall in Hin2, Hfp. apply Hfp. now apply Hin2.
    + apply Forall_app. split.
      * apply Forall_forall. intros e He. left. symmetry.
        rewrite Forall_forall in Hb1. eapply builtFrom_store. now apply Hb1.
      * eapply Forall_impl; [|exact Hin2]. intros e He. now right.
Qed.

(** X14: after a refresh that returned no error the entries stand in
    the byte-wise order of the paths of their store files: an entry
    never precedes an entry read from a smaller path. *)
Theorem X14_entries_in_path_order (env : Env) (mc : ModelCatalog)
        (mDir mLogDir : string) (w : World) :
  match RefreshSqlite env mc mDir mLogDir w with
  | (None, mc', _) => StronglySorted leS (map storeOf (modelLst mc'))
  | (Some _, mc', _) => mc' = mc
  end.
Proof.
  rewrite RefreshSqlite_unfold.
  destruct (dirUsable env mDir); cbn [negb]; [|reflexivity].
  destruct (listSqlite env mDir w) as [[[e|] pathLst] w1]; [reflexivity|].
  destruct (pathLoop_order env mLogDir (dirUsable env mLogDir)
              (sort.Strings pathLst) [] w1 (Strings_sorted pathLst))
    as (new & Hf & Hs & _).
  cbn [modelLst installedBy]. rewrite Hf. exact Hs.
Qed.

(** ** The events of a refresh *)

Lemma trace_emitted (e : Event) (w : World) :
  trace (emitted e w) = trace w ++ [e].
Proof. reflexivity. Qed.

Lemma nextConn_emitted (e : Event) (w : World) :
  nextConn (emitted e w) = nextConn w.
Proof. reflexivity. Qed.

Lemma trace_opened (env : Env) (fp : string) (w : World) :
  trace (opened env fp w)
  = trace w ++ [EvOpen fp (match dbOpen env fp with
                           | Some _ => None
                           | None => Some (connAt w fp)
                           end)].
Proof. unfold opened, Open. destruct (dbOpen env fp); reflexivity. Qed.

Lemma nextConn_opened (env : Env) (fp : string) (w : World) :
  nextConn (opened env fp w)
  = match dbOpen env fp with
    | Some _ => nextConn w
    | None => S (nextConn w)
    end.
Proof. unfold opened, Open. destruct (dbOpen env fp); reflexivity. Qed.

(** The body of the path loop, written out state by state. *)
Lemma pathBody_eq (env : Env) (mLogDir : string) (il : bool) (fp : string)
      (mLst : list modelDef) (w : World) :
  pathBody env mLogDir il fp mLst w =
  match dbOpen env fp with
  | Some err => (mLst, logged ["Error: "; fp; " : "; Error err] (opened env fp w))
  | None =>
      let dbc := connAt w fp in
      let w1 := emitted (EvSchemaVersion dbc) (opened env fp w) in
      let w2 := if schemaBad env fp
                then afterClose env dbc
                       (logged ["Error: invalid database, likely not an openM++ database"; fp] w1)
                else w1 in
      let w3 := emitted (EvGetModelList dbc) w2 in
      if modelListBad env fp (schemaBad env fp)
      then (mLst, afterClose env dbc
                    (logged ["Warning: empty database, no models found: "; fp] w3))
      else
        let w4 := emitted (EvGetLanguages dbc) w3 in
        match dbGetLanguages env fp (schemaBad env fp) with
        | (Some ls, None) =>
            dicLoop dbc (pathDir env fp) mLogDir il ls
                    (fst (dbGetModelList env fp (schemaBad env fp))) mLst w4
        | _ => (mLst, afterClose env dbc
                        (logged ["Warning: no languages found in database: "; fp] w4))
        end
  end.
Proof.
  cbv beta iota zeta
      delta [pathBody bind ret Open emit Log connClose emitted logged
             afterClose opened connAt schemaBad modelListBad fst snd].
  destruct (dbOpen env fp) as [e|]; [reflexivity|].
  destruct (dbOpenmppSchemaVersion env fp) as [nv err].
  destruct (negb (isNil err) || (nv <? MinSchemaVersion env)%Z).
  - destruct (dbGetModelList env fp true) as [dicLst err'].
    destruct (negb (isNil err') || (Z.of_nat (length dicLst) <=? 0)%Z);
      [reflexivity|].
    destruct (dbGetLanguages env fp true) as [[ls|] [err''|]]; reflexivity.
  - destruct (dbGetModelList env fp false) as [dicLst err'].
    destruct (negb (isNil err') || (Z.of_nat (length dicLst) <=? 0)%Z);
      [reflexivity|].
    destruct (dbGetLanguages env fp false) as [[ls|] [err''|]]; reflexivity.
Qed.

Lemma openedPaths_app (l1 l2 : list Event) :
  openedPaths (l1 ++ l2) = openedPaths l1 ++ openedPaths l2.
Proof.
  induction l1 as [|ev l1 IH]; simpl; [reflexivity|].
  destruct ev; simpl; try assumption. now rewrite IH.
Qed.

Lemma extends_trans (w w1 w2 : World) (e1 e2 : list Event) :
  extends w w1 e1 -> extends w1 w2 e2 -> extends w w2 (e1 ++ e2).
Proof.
  unfold extends. intros H1 H2. now rewrite H2, H1, app_assoc.
Qed.

(** [dicLoop] only writes to the log, and every entry it adds holds the
    connection it was given. *)
Lemma dicLoop_run (mLogDir : string) (il : bool) dbc d ls
      (rows : list db.ModelDicRow) :
  forall mLst w,
  exists evs new,
    extends w (snd (dicLoop dbc d mLogDir il ls rows mLst w)) evs /\
    fst (dicLoop dbc d mLogDir il ls rows mLst w) = mLst ++ new /\
    openedPaths evs = [] /\ closedConns evs = [] /\
    nextConn (snd (dicLoop dbc d mLogDir il ls rows mLst w)) = nextConn w /\
    Forall (fun e => dbConn e = dbc) new /\
    ((forall row, In row rows -> In (db.Digest row) (map digestOf mLst)) ->
     new = []).
Proof.
  induction rows as [|row rest IH]; intros mLst w.
  - exists [], []. unfold extends. simpl. rewrite !app_nil_r. repeat split; auto.
  - rewrite dicLoop_cons.
    destruct (existsb (fun m => (db.Digest row =? digestOf m)%string) mLst) eqn:Hex.
    + match goal with |- context [dicLoop _ _ _ _ _ rest mLst ?w1] =>
        destruct (IH mLst w1) as (evs & new & He & Hf & Ho & Hc & Hn & Hd & Hall) end.
      exists (EvLog (String.concat ""
                ["Skip: model already exist in other database: ";
                 db.Name row; " "; db.Digest row]) :: evs), new.
      unfold extends in *. rewrite He, Hf, Hn, trace_logged, nextConn_logged.
      rewrite <- app_assoc. cbn [app openedPaths closedConns].
      repeat split; auto.
      intros Hrows. apply Hall. intros r Hr. apply Hrows. now right.
    + destruct (IH (mLst ++ [newModelDef dbc d mLogDir il ls row]) w)
        as (evs & new & He & Hf & Ho & Hc & Hn & Hd & Hall).
      exists evs, (newModelDef dbc d mLogDir il ls row :: new).
      rewrite Hf, <- app_assoc. repeat split; auto.
      * constructor; [|exact Hd].
        now destruct (newModelDef_langCodes mLogDir il dbc d ls row)
          as (_ & _ & _ & Hconn & _).
      * intros Hrows. exfalso.
        assert (Hin : In (db.Digest row) (map digestOf mLst))
          by (apply Hrows; now left).
        apply existsb_digest in Hin. congruence.
Qed.

Ltac traces :=
  repeat (rewrite trace_closed || rewrite trace_logged
          || rewrite trace_emitted || rewrite trace_opened);
  repeat (rewrite nextConn_closed || rewrite nextConn_logged
          || rewrite nextConn_emitted).

(** One turn of the path loop: one call of [db.Open], on [fp]; the new
    entries hold the connection opened in this turn, and no other
    connection is closed. *)
Lemma pathBody_run (env : Env) (mLogDir : string) (il : bool) (fp : string)
      (mLst : list modelDef) (w : World) :
  exists evs new,
    extends w (snd (pathBody env mLogDir il fp mLst w)) evs /\
    fst (pathBody env mLogDir il fp mLst w) = mLst ++ new /\
    openedPaths evs = [fp] /\
    nextConn (snd (pathBody env mLogDir il fp mLst w))
    = nextConn (opened env fp w) /\
    Forall (fun e => dbConn e = connAt w fp) new /\
    Forall (fun c => c = connAt w fp) (closedConns evs) /\
    (dbOpen env fp <> None -> new = [] /\ closedConns evs = []) /\
    (schemaBad env fp = false -> new = [] \/ closedConns evs = []).
Proof.
  rewrite pathBody_eq. unfold extends.
  destruct (dbOpen env fp) as [e|] eqn:Hopen.
  { eexists; exists []. cbn [fst snd]. traces. rewrite Hopen, (app_nil_r mLst).
    rewrite <- !app_assoc. split; [reflexivity|].
    cbn [app openedPaths closedConns]. repeat split; auto; constructor. }
  assert (Hsome : dbOpen env fp <> None -> False) by congruence.
  cbv zeta.
  destruct (modelListBad env fp (schemaBad env fp)).
  { destruct (schemaBad env fp);
      eexists; exists []; cbn [fst snd]; traces; rewrite Hopen, (app_nil_r mLst);
      rewrite <- !app_assoc; (split; [reflexivity|]);
      cbn [app openedPaths closedConns]; repeat split; auto;
      repeat constructor; contradiction. }
  destruct (dbGetLanguages env fp (schemaBad env fp)) as [[ls|] [err|]];
    try (destruct (schemaBad env fp);
         eexists; exists []; cbn [fst snd]; traces; rewrite Hopen, (app_nil_r mLst);
         rewrite <- !app_assoc; (split; [reflexivity|]);
         cbn [app openedPaths closedConns]; repeat split; auto;
         repeat constructor; contradiction).
  match goal with |- context [dicLoop ?dbc ?d _ _ ?ls ?rows mLst ?w4] =>
    destruct (dicLoop_run mLogDir il dbc d ls rows mLst w4)
      as (evs & new & He & Hf & Ho & Hc & Hn & Hd & _)
  end.
  unfold extends in He. rewrite He, Hf, Hn.
  destruct (schemaBad env fp);
    eexists; exists new; traces; rewrite Hopen;
    rewrite <- !app_assoc; (split; [reflexivity|]);
    rewrite ?openedPaths_app, ?closedConns_app;
    cbn [app openedPaths closedConns]; rewrite ?Ho, ?Hc;
    repeat split; auto; repeat constructor; try contradiction;
    intros; discriminate.
Qed.

Lemma pathLoop_run (env : Env) (mLogDir : string) (il : bool)
      (pathLst : list string) :
  forall mLst w,
  exists evs new,
    extends w (snd (pathLoop env mLogDir il pathLst mLst w)) evs /\
    fst (pathLoop env mLogDir il pathLst mLst w) = mLst ++ new /\
    openedPaths evs = pathLst /\
    (nextConn w <= nextConn (snd (pathLoop env mLogDir il pathLst mLst w)))%nat /\
    Forall (fun e =>
              (nextConn w <= db.connId (dbConn e)
               < nextConn (snd (pathLoop env mLogDir il pathLst mLst w)))%nat)
           new /\
    Forall (fun c =>
              (nextConn w <= db.connId c
               < nextConn (snd (pathLoop env mLogDir il pathLst mLst w)))%nat)
           (closedConns evs).
Proof.
  induction pathLst as [|fp rest IH]; intros mLst w.
  - exists [], []. unfold extends. simpl. rewrite !app_nil_r.
    repeat split; auto.
  - rewrite pathLoop_cons.
    destruct (pathBody_run env mLogDir il fp mLst w)
      as (evs1 & new1 & He1 & Hf1 & Ho1 & Hn1 & Hd1 & Hc1 & Hfail & _).
    rewrite Hf1.
    destruct (IH (mLst ++ new1) (snd (pathBody env mLogDir il fp mLst w)))
      as (evs2 & new2 & He2 & Hf2 & Ho2 & Hn2 & Hd2 & Hc2).
    set (w1 := snd (pathBody env mLogDir il fp mLst w)) in *.
    set (w2 := snd (pathLoop env mLogDir il rest (mLst ++ new1) w1)) in *.
    rewrite nextConn_opened in Hn1.
    assert (Hstep : (nextConn w <= nextConn w1)%nat)
      by (rewrite Hn1; destruct (dbOpen env fp); lia).
    assert (Hid : dbOpen env fp = None ->
                  (nextConn w <= db.connId (connAt w fp) < nextConn w2)%nat).
    { intros Hopen. rewrite Hopen in Hn1. cbn [connAt db.connId].
      clearbody w1 w2. lia. }
    exists (evs1 ++ evs2), (new1 ++ new2).
    rewrite Hf2, <- app_assoc, openedPaths_app, closedConns_app, Ho1, Ho2.
    split; [eapply extends_trans; eassumption|].
    split; [reflexivity|]. split; [reflexivity|].
    clearbody w1 w2. split; [lia|].
    split; apply Forall_app; split.
    + destruct (dbOpen env fp) as [e|] eqn:Hopen.
      * destruct Hfail as [-> _]; [discriminate | constructor].
      * eapply Forall_impl; [|exact Hd1]. intros e ->. now apply Hid.
    + eapply Forall_impl; [|exact Hd2]. simpl. intros e He. lia.
    + destruct (dbOpen env fp) as [e|] eqn:Hopen.
      * destruct Hfail as [_ ->]; [discriminate | constructor].
      * eapply Forall_impl; [|exact Hc1]. intros c ->. now apply Hid.
    + eapply Forall_impl; [|exact Hc2]. simpl. intros c Hc. lia.
Qed.

Lemma closeLoop_run (env : Env) (lst : list modelDef) :
  forall w,
  exists evs,
    extends w (snd (closeLoop env lst w)) evs /\
    openedPaths evs = [] /\
    closedConns evs = map dbConn lst /\
    nextConn (snd (closeLoop env lst w)) = nextConn w.
Proof.
  induction lst as [|m rest IH]; intros w.
  - exists []. unfold extends. simpl. now rewrite app_nil_r.
  - rewrite closeLoop_cons. unfold extends in *.
    destruct (dbClose env (trace w) (dbConn m)) as [e|] eqn:Hc.
    + match goal with |- context [closeLoop env rest ?w1] =>
        destruct (IH w1) as (evs & Ht & Ho & Hcl & Hn) end.
      rewrite trace_logged, trace_closed, Hc in Ht.
      rewrite nextConn_logged, nextConn_closed in Hn.
      eexists (EvClose (dbConn m) (Some e) :: EvLog _ :: evs).
      rewrite Ht, Hn. rewrite <- !app_assoc.
      cbn [app closedConns openedPaths map]. rewrite Hcl, Ho. repeat split.
    + destruct (IH (afterClose env (dbConn m) w)) as (evs & Ht & Ho & Hcl & Hn).
      rewrite trace_closed, Hc in Ht. rewrite nextConn_closed in Hn.
      exists (EvClose (dbConn m) None :: evs).
      rewrite Ht, Hn. rewrite <- !app_assoc.
      cbn [app closedConns openedPaths map]. rewrite Hcl, Ho. repeat split.
Qed.

(** X15: a refresh whose walk succeeds calls [db.Open] once for every
    listed path, in byte-wise sorted order, and on nothing else. *)
Theorem X15_refresh_opens_each_listed_path_once (env : Env) (mc : ModelCatalog)
        (mDir mLogDir : string) (w w1 : World) (pathLst : list string) :
  dirUsable env mDir = true ->
  listSqlite env mDir w = (None, pathLst, w1) ->
  exists mc' w' evs,
    RefreshSqlite env mc mDir mLogDir w = (None, mc', w') /\
    extends w w' evs /\
    openedPaths evs = sort.Strings pathLst.
Proof.
  intros Hdir Hwalk.
  rewrite RefreshSqlite_unfold, Hdir, Hwalk. cbn [negb].
  destruct (listSqlite_success _ _ _ _ _ Hwalk) as [_ ->].
  destruct (pathLoop_run env mLogDir (dirUsable env mLogDir)
              (sort.Strings pathLst) [] w)
    as (evs1 & new & He1 & _ & Ho1 & _).
  destruct (closeLoop_run env (modelLst mc)
              (snd (pathLoop env mLogDir (dirUsable env mLogDir)
                             (sort.Strings pathLst) [] w)))
    as (evs2 & He2 & Ho2 & _).
  do 2 eexists. exists (evs1 ++ evs2). split; [reflexivity|].
  split; [eapply extends_trans; eassumption|].
  now rewrite openedPaths_app, Ho1, Ho2, app_nil_r.
Qed.

Lemma X15_refresh_opens_witness :
  exists mc' w' evs,
    RefreshSqlite Demo.env Demo.installed "models" "logs" Demo.world1
    = (None, mc', w') /\
    extends Demo.world1 w' evs /\
    openedPaths evs
    = sort.Strings ["models/A/model.sqlite"; "models/B/model.SQLite";
                    "models/bad.sqlite"; "models/old.sqlite"].
Proof.
  apply (X15_refresh_opens_each_listed_path_once Demo.env Demo.installed
           "models" "logs" Demo.world1 Demo.world1).
  - vm_compute. reflexivity.
  - vm_compute. reflexivity.
Defined.

(** X16: the entries a refresh installs hold connections opened by that
    very refresh; when, as for a catalog built in this world, the
    previous entries hold connections opened earlier, no new entry
    shares a connection with a previous entry, so retiring the previous
    entries closes no connection of the new catalog. *)
Theorem X16_new_entries_hold_fresh_connections (env : Env) (mc mc' : ModelCatalog)
        (mDir mLogDir : string) (w w' : World) :
  RefreshSqlite env mc mDir mLogDir w = (None, mc', w') ->
  Forall (fun e => (db.connId (dbConn e) < nextConn w)%nat) (modelLst mc) ->
  Forall (fun e' =>
            (nextConn w <= db.connId (dbConn e') < nextConn w')%nat
            /\ ~ In (dbConn e') (map dbConn (modelLst mc)))
         (modelLst mc').
Proof.
  intros Href Hold.
  destruct (RefreshSqlite_success _ _ _ _ _ _ _ Href)
    as (pl & w1 & _ & Hwalk & -> & ->).
  destruct (listSqlite_success _ _ _ _ _ Hwalk) as [_ ->].
  destruct (pathLoop_run env mLogDir (dirUsable env mLogDir)
              (sort.Strings pl) [] w)
    as (evs1 & new & _ & Hf & _ & _ & Hids & _).
  destruct (closeLoop_run env (modelLst mc)
              (snd (pathLoop env mLogDir (dirUsable env mLogDir)
                             (sort.Strings pl) [] w)))
    as (evs2 & _ & _ & _ & Hn).
  cbn [modelLst installedBy]. rewrite Hf, Hn. simpl.
  eapply Forall_impl; [|exact Hids].
  intros e' Hid. split; [exact Hid|].
  intros Hin. apply in_map_iff in Hin. destruct Hin as (e & He & Hin).
  rewrite Forall_forall in Hold. specialize (Hold e Hin).
  rewrite He in Hold. cbv beta in Hid. lia.
Qed.

Lemma X16_new_entries_fresh_witness :
  Forall (fun e' =>
            (nextConn Demo.world1 <= db.connId (dbConn e')
             < nextConn (snd (RefreshSqlite Demo.env Demo.installed
                                 "models" "logs" Demo.world1)))%nat
            /\ ~ In (dbConn e') (map dbConn (modelLst Demo.installed)))
         (modelLst (snd (fst (RefreshSqlite Demo.env Demo.installed
                                "models" "logs" Demo.world1)))).
Proof.
  apply (X16_new_entries_hold_fresh_connections Demo.env Demo.installed
           (snd (fst (RefreshSqlite Demo.env Demo.installed
                        "models" "logs" Demo.world1)))
           "models" "logs" Demo.world1
           (snd (RefreshSqlite Demo.env Demo.installed
                   "models" "logs" Demo.world1))).
  - vm_compute. reflexivity.
  - vm_compute. repeat constructor.
Defined.

(** ** Stores that add nothing *)

Lemma goodStore_flags (env : Env) (fp : string) :
  goodStore env fp ->
  dbOpen env fp = None /\ schemaBad env fp = false /\
  modelListBad env fp false = false /\
  exists ls, dbGetLanguages env fp false = (Some ls, None).
Proof.
  intros (Hopen & Hserr & Hnv & Hmerr & Hrows & Hls).
  unfold schemaBad, modelListBad. rewrite Hserr, Hmerr. cbn [isNil negb orb].
  repeat split; auto.
  - apply Z.ltb_ge. exact Hnv.
  - apply Z.leb_gt. destruct (fst (dbGetModelList env fp false));
      [congruence | simpl length; lia].
Qed.

(** X17: a store that opens and passes the schema check but returns an
    error or no rows for its models, or no language list, adds no entry,
    and its connection is closed, exactly once, before the loop goes on
    to the next path. *)
Theorem X17_empty_store_is_closed_once (env : Env) (mLogDir : string)
        (il : bool) (fp : string) (mLst : list modelDef) (w : World) :
  dbOpen env fp = None ->
  schemaBad env fp = false ->
  modelListBad env fp false = true
  \/ (forall ls, dbGetLanguages env fp false <> (Some ls, None)) ->
  exists evs,
    extends w (snd (pathBody env mLogDir il fp mLst w)) evs /\
    fst (pathBody env mLogDir il fp mLst w) = mLst /\
    openedPaths evs = [fp] /\
    closedConns evs = [connAt w fp].
Proof.
  intros Hopen Hschema Hempty.
  rewrite pathBody_eq, Hopen, Hschema. cbv zeta. unfold extends.
  destruct (modelListBad env fp false) eqn:Hml.
  { eexists. cbn [fst snd]. traces. rewrite Hopen. rewrite <- !app_assoc.
    split; [reflexivity|]. cbn [app openedPaths closedConns]. repeat split. }
  destruct Hempty as [Hbad | Hnols]; [discriminate|].
  destruct (dbGetLanguages env fp false) as [[ls|] [err|]] eqn:Hls;
    try (eexists; cbn [fst snd]; traces; rewrite Hopen; rewrite <- !app_assoc;
         (split; [reflexivity|]); cbn [app openedPaths closedConns];
         repeat split).
  exfalso. exact (Hnols ls eq_refl).
Qed.

Lemma X17_empty_store_witness :
  exists evs,
    extends Demo.world0
            (snd (pathBody Demo.env "" false "models/readme.sqlite" [] Demo.world0))
            evs /\
    fst (pathBody Demo.env "" false "models/readme.sqlite" [] Demo.world0) = [] /\
    openedPaths evs = ["models/readme.sqlite"] /\
    closedConns evs = [connAt Demo.world0 "models/readme.sqlite"].
Proof.
  apply (X17_empty_store_is_closed_once Demo.env "" false
           "models/readme.sqlite" [] Demo.world0).
  - vm_compute. reflexivity.
  - vm_compute. reflexivity.
  - left. vm_compute. reflexivity.
Defined.

(** X18: a good store every model of which is already in the list (by
    digest) adds no entry, and the connection opened on it is not
    closed by the loop: it stays open while no entry refers to it. *)
Theorem X18_duplicate_store_connection_stays_open (env : Env) (mLogDir : string)
        (il : bool) (fp : string) (mLst : list modelDef) (w : World) :
  goodStore env fp ->
  (forall row, In row (fst (dbGetModelList env fp false)) ->
               In (db.Digest row) (map digestOf mLst)) ->
  exists evs,
    extends w (snd (pathBody env mLogDir il fp mLst w)) evs /\
    fst (pathBody env mLogDir il fp mLst w) = mLst /\
    openedPaths evs = [fp] /\
    closedConns evs = [] /\
    nextConn (snd (pathBody env mLogDir il fp mLst w)) = S (nextConn w).
Proof.
  intros Hgood Hdup.
  destruct (goodStore_flags env fp Hgood) as (Hopen & Hschema & Hml & ls & Hls).
  rewrite pathBody_eq, Hopen, Hschema, Hml, Hls. cbv zeta. unfold extends.
  match goal with |- context [dicLoop ?dbc ?d _ _ _ ?rows mLst ?w4] =>
    destruct (dicLoop_run mLogDir il dbc d ls rows mLst w4)
      as (evs & new & He & Hf & Ho & Hc & Hn & _ & Hnone)
  end.
  unfold extends in He. rewrite He, Hf, Hn, (Hnone Hdup), app_nil_r.
  eexists. traces. rewrite nextConn_opened, Hopen. rewrite <- !app_assoc.
  split; [reflexivity|].
  rewrite ?openedPaths_app, ?closedConns_app.
  cbn [app openedPaths closedConns]. rewrite Ho, Hc. repeat split.
Qed.

Lemma X18_duplicate_store_witness :
  exists evs,
    extends Demo.world1
            (snd (pathBody Demo.env "logs" true "models/A/model.sqlite"
                           (modelLst Demo.installed) Demo.world1))
            evs /\
    fst (pathBody Demo.env "logs" true "models/A/model.sqlite"
                  (modelLst Demo.installed) Demo.world1)
    = modelLst Demo.installed /\
    openedPaths evs = ["models/A/model.sqlite"] /\
    closedConns evs = [] /\
    nextConn (snd (pathBody Demo.env "logs" true "models/A/model.sqlite"
                            (modelLst Demo.installed) Demo.world1))
    = S (nextConn Demo.world1).
Proof.
  apply (X18_duplicate_store_connection_stays_open Demo.env "logs" true
           "models/A/model.sqlite" (modelLst Demo.installed) Demo.world1).
  - repeat split; try (vm_compute; congruence).
    exists Demo.enFrDe. reflexivity.
  - intros row Hrow. vm_compute in Hrow.
    destruct Hrow as [<-|[<-|[]]]; vm_compute; auto.
Defined.

(** ** The handler that closes the catalog *)

Lemma firstCloseError_app_log (evs : list Event) (msg : string) :
  firstCloseError (evs ++ [EvLog msg]) = firstCloseError evs.
Proof.
  induction evs as [|ev evs IH]; simpl; [reflexivity|].
  destruct ev as [| | | | |dbc [e|]]; auto.
Qed.

(** X19: [allModelsCloseHandler] closes the connection of every entry
    and leaves the catalog empty with its directories unchanged,
    whatever the closes return; it answers through [http.Error] with
    status 400 exactly when some close returned an error, and otherwise
    sets the Content-Location and Content-Type headers; both answers
    name the model directory configured before the close. *)
Theorem X19_close_handler_empties_catalog_and_reports
        (Response : Type)
        (httpError : Response -> string -> Z -> Response)
        (headerSet : Response -> string -> string -> Response)
        (env : Env) (theCatalog : ModelCatalog) (rw : Response) (w : World) :
  exists evs,
    extends w (snd (allModelsCloseHandler Response httpError headerSet
                      env theCatalog rw w)) evs
    /\ closedConns evs = map dbConn (modelLst theCatalog)
    /\ modelLst (fst (fst (allModelsCloseHandler Response httpError headerSet
                             env theCatalog rw w))) = []
    /\ getModelDir (fst (fst (allModelsCloseHandler Response httpError headerSet
                                env theCatalog rw w)))
       = getModelDir theCatalog
    /\ snd (fst (allModelsCloseHandler Response httpError headerSet
                   env theCatalog rw w))
       = match firstCloseError evs with
         | Some _ =>
             httpError rw
               ("Failed to close models catalog: " ++ modelDir theCatalog)%string
               StatusBadRequest
         | None =>
             headerSet
               (headerSet rw "Content-Location"
                  ("/api/admin/all-models/close/" ++ modelDir theCatalog)%string)
               "Content-Type" "text/plain"
         end.
Proof.
  destruct (closeFirstErr_spec env (modelLst theCatalog) None w)
    as (evs & Ht & _ & Hcl & Hr).
  unfold allModelsCloseHandler, getModelDir, Close, bind, ret, extends.
  destruct (closeFirstErr env (modelLst theCatalog) None w) as [r w1].
  cbn [fst snd] in *. subst r.
  destruct (firstCloseError evs) as [e|] eqn:Hfirst.
  - exists (evs ++ [EvLog (String.concat "" [Error e])]).
    unfold Log, emit. cbn [fst snd trace modelLst modelDir isDirEnabled].
    rewrite Ht, app_assoc, closedConns_app, firstCloseError_app_log, Hfirst, Hcl.
    cbn [closedConns]. rewrite app_nil_r. repeat split.
  - exists evs. cbn [fst snd modelLst modelDir isDirEnabled].
    rewrite Hfirst. repeat split; assumption.
Qed.

(** ** Refreshing again *)

Lemma content_digests (l1 l2 : list modelDef) :
  map content l1 = map content l2 -> map digestOf l1 = map digestOf l2.
Proof.
  revert l2. induction l1 as [|a l1 IH]; intros [|b l2] H; try discriminate;
    [reflexivity|].
  simpl in H. injection H as Hhead Hrest.
  simpl. f_equal; [|now apply IH].
  unfold content in Hhead. unfold digestOf.
  replace (meta a) with (meta b) by congruence. reflexivity.
Qed.

Lemma content_newModelDef mLogDir il dbc1 dbc2 d ls row :
  db.connPath dbc1 = db.connPath dbc2 ->
  content (newModelDef dbc1 d mLogDir il ls row)
  = content (newModelDef dbc2 d mLogDir il ls row).
Proof.
  intros Hp. unfold content, storeOf, newModelDef.
  destruct (langLoop ls (db.DefaultLangCode row)). simpl. now rewrite Hp.
Qed.

Lemma dicLoop_content mLogDir il dbc1 dbc2 d ls (rows : list db.ModelDicRow) :
  db.connPath dbc1 = db.connPath dbc2 ->
  forall mLst1 mLst2 w1 w2,
    map content mLst1 = map content mLst2 ->
    map content (fst (dicLoop dbc1 d mLogDir il ls rows mLst1 w1))
    = map content (fst (dicLoop dbc2 d mLogDir il ls rows mLst2 w2)).
Proof.
  intros Hp. induction rows as [|row rest IH]; intros mLst1 mLst2 w1 w2 Hc.
  - exact Hc.
  - rewrite !dicLoop_cons.
    assert (Hex : existsb (fun m => (db.Digest row =? digestOf m)%string) mLst1
                  = existsb (fun m => (db.Digest row =? digestOf m)%string) mLst2).
    { apply Bool.eq_iff_eq_true. rewrite !existsb_digest.
      now rewrite (content_digests _ _ Hc). }
    rewrite Hex.
    destruct (existsb (fun m => (db.Digest row =? digestOf m)%string) mLst2).
    + now apply IH.
    + apply IH. rewrite !map_app, Hc. simpl.
      now rewrite (content_newModelDef mLogDir il dbc1 dbc2 d ls row Hp).
Qed.

Lemma pathBody_content (env : Env) (mLogDir : string) (il : bool) (fp : string)
      (mLst1 mLst2 : list modelDef) (w1 w2 : World) :
  map content mLst1 = map content mLst2 ->
  map content (fst (pathBody env mLogDir il fp mLst1 w1))
  = map content (fst (pathBody env mLogDir il fp mLst2 w2)).
Proof.
  intros Hc. rewrite !pathBody_eq.
  destruct (dbOpen env fp); [exact Hc|]. cbv zeta.
  destruct (modelListBad env fp (schemaBad env fp)); [exact Hc|].
  destruct (dbGetLanguages env fp (schemaBad env fp)) as [[ls|] [err|]];
    try exact Hc.
  now apply dicLoop_content.
Qed.

Lemma pathLoop_content (env : Env) (mLogDir : string) (il : bool)
      (pathLst : list string) :
  forall mLst1 mLst2 w1 w2,
    map content mLst1 = map content mLst2 ->
    map content (fst (pathLoop env mLogDir il pathLst mLst1 w1))
    = map content (fst (pathLoop env mLogDir il pathLst mLst2 w2)).
Proof.
  induction pathLst as [|fp rest IH]; intros mLst1 mLst2 w1 w2 Hc.
  - exact Hc.
  - rewrite !pathLoop_cons. apply IH. now apply pathBody_content.
Qed.

(** X20: the outcome of a refresh depends on the disk and the database
    layer only, not on the catalog it replaces nor on what happened
    before: two refreshes of the same directories return the same error
    or both return none, and in the latter case install the same
    directory configuration and entries with the same content, in the
    same order (only the connection handles differ). *)
Theorem X20_refresh_is_repeatable (env : Env) (mc1 mc2 : ModelCatalog)
        (mDir mLogDir : string) (w1 w2 : World) :
  fst (fst (RefreshSqlite env mc1 mDir mLogDir w1))
  = fst (fst (RefreshSqlite env mc2 mDir mLogDir w2))
  /\ match fst (fst (RefreshSqlite env mc1 mDir mLogDir w1)) with
     | None =>
         map content (modelLst (snd (fst (RefreshSqlite env mc1 mDir mLogDir w1))))
         = map content (modelLst (snd (fst (RefreshSqlite env mc2 mDir mLogDir w2))))
         /\ toPublicConfig (snd (fst (RefreshSqlite env mc1 mDir mLogDir w1)))
            = toPublicConfig (snd (fst (RefreshSqlite env mc2 mDir mLogDir w2)))
     | Some _ =>
         snd (fst (RefreshSqlite env mc1 mDir mLogDir w1)) = mc1
         /\ snd (fst (RefreshSqlite env mc2 mDir mLogDir w2)) = mc2
     end.
Proof.
  rewrite !RefreshSqlite_unfold.
  destruct (dirUsable env mDir); cbn [negb];
    [|cbn [fst snd]; repeat split].
  pose proof (listSqlite_outcome env mDir w1) as H1.
  pose proof (listSqlite_outcome env mDir w2) as H2.
  destruct (filepath.firstFailure mDir (lstat env mDir)) as [[p msg]|] eqn:Hff.
  - destruct H1 as (pl1 & ->). destruct H2 as (pl2 & ->). cbn [fst snd].
    repeat split.
  - rewrite !(listSqlite_visited env mDir _ Hff). cbn [fst snd].
    split; [reflexivity|]. split; [|reflexivity].
    cbn [modelLst installedBy]. now apply pathLoop_content.
Qed.

(** ** The connections of the new entries *)

Lemma extends_unique (w w' : World) (e1 e2 : list Event) :
  extends w w' e1 -> extends w w' e2 -> e1 = e2.
Proof.
  unfold extends. intros H1 H2. rewrite H1 in H2.
  now apply app_inv_head in H2.
Qed.

(** When every path passes the schema check, no connection held by a
    new entry is closed while the list is built. *)
Lemma pathLoop_live (env : Env) (mLogDir : string) (il : bool)
      (pathLst : list string) :
  forall mLst w,
    (forall fp, In fp pathLst -> schemaBad env fp = false) ->
    exists evs new,
      extends w (snd (pathLoop env mLogDir il pathLst mLst w)) evs /\
      fst (pathLoop env mLogDir il pathLst mLst w) = mLst ++ new /\
      Forall (fun e => ~ In (dbConn e) (closedConns evs)) new.
Proof.
  induction pathLst as [|fp rest IH]; intros mLst w Hok.
  - exists [], []. unfold extends. simpl. rewrite !app_nil_r. auto.
  - rewrite pathLoop_cons.
    destruct (pathBody_run env mLogDir il fp mLst w)
      as (evs1 & new1 & He1 & Hf1 & _ & Hn1 & Hd1 & Hc1 & Hfail & Hlive).
    rewrite Hf1.
    assert (Hrest : forall p, In p rest -> schemaBad env p = false)
      by (intros p Hp; apply Hok; now right).
    destruct (IH (mLst ++ new1) (snd (pathBody env mLogDir il fp mLst w)) Hrest)
      as (evs2 & new2 & He2 & Hf2 & Hl2).
    destruct (pathLoop_run env mLogDir il rest (mLst ++ new1)
                (snd (pathBody env mLogDir il fp mLst w)))
      as (evs2' & new2' & He2' & Hf2' & _ & _ & Hid2 & Hcl2).
    assert (evs2' = evs2) by (eapply extends_unique; eassumption). subst evs2'.
    assert (new2' = new2).
    { rewrite Hf2 in Hf2'. now apply app_inv_head in Hf2'. }
    subst new2'.
    rewrite nextConn_opened in Hn1.
    exists (evs1 ++ evs2), (new1 ++ new2).
    rewrite Hf2, <- app_assoc, closedConns_app.
    split; [eapply extends_trans; eassumption|]. split; [reflexivity|].
    specialize (Hlive (Hok fp (or_introl eq_refl))).
    apply Forall_app. split.
    + destruct new1 as [|e0 new1']; [constructor|].
      destruct Hlive as [Hnil | Hnocl]; [discriminate|].
      destruct (dbOpen env fp) as [err|] eqn:Hopen.
      { destruct Hfail as [Hnil _]; [discriminate | discriminate]. }
      rewrite Hnocl. simpl app.
      eapply Forall_impl; [|exact Hd1].
      intros e He Hin. rewrite Forall_forall in Hcl2.
      specialize (Hcl2 _ Hin). rewrite He in Hcl2.
      cbn [connAt db.connId] in Hcl2. lia.
    + rewrite Forall_forall in Hl2, Hid2, Hc1. apply Forall_forall.
      intros e He Hin. apply in_app_or in Hin. destruct Hin as [Hin|Hin].
      * destruct (dbOpen env fp) as [err|] eqn:Hopen.
        { destruct Hfail as [_ Hnocl]; [discriminate|].
          rewrite Hnocl in Hin. destruct Hin. }
        specialize (Hc1 _ Hin). specialize (Hid2 _ He).
        rewrite Hc1 in Hid2. cbn [connAt db.connId] in Hid2. lia.
      * exact (Hl2 e He Hin).
Qed.

(** X21: when every listed store passes the schema check (and the
    previous entries hold connections opened earlier), no connection
    held by an entry of the refreshed catalog has been closed at any
    point of the refresh: neither while the list was built nor when the
    previous entries were retired. *)
Theorem X21_refreshed_catalog_holds_open_connections
        (env : Env) (mc : ModelCatalog) (mDir mLogDir : string)
        (w w1 : World) (pathLst : list string) :
  dirUsable env mDir = true ->
  listSqlite env mDir w = (None, pathLst, w1) ->
  (forall fp, In fp pathLst -> schemaBad env fp = false) ->
  Forall (fun e => (db.connId (dbConn e) < nextConn w)%nat) (modelLst mc) ->
  exists mc' w' evs,
    RefreshSqlite env mc mDir mLogDir w = (None, mc', w') /\
    extends w w' evs /\
    Forall (fun e => ~ In (dbConn e) (closedConns evs)) (modelLst mc').
Proof.
  intros Hdir Hwalk Hok Hold.
  rewrite RefreshSqlite_unfold, Hdir, Hwalk. cbn [negb].
  destruct (listSqlite_success _ _ _ _ _ Hwalk) as [_ ->].
  assert (Hok' : forall fp, In fp (sort.Strings pathLst) -> schemaBad env fp = false)
    by (intros fp Hfp; apply Hok; now apply In_Strings).
  destruct (pathLoop_live env mLogDir (dirUsable env mLogDir)
              (sort.Strings pathLst) [] w Hok')
    as (evs1 & new & He1 & Hf & Hlive).
  destruct (pathLoop_run env mLogDir (dirUsable env mLogDir)
              (sort.Strings pathLst) [] w)
    as (evs1' & new' & _ & Hf' & _ & _ & Hids & _).
  assert (new' = new) by (rewrite Hf in Hf'; now apply app_inv_head in Hf').
  subst new'.
  destruct (closeLoop_run env (modelLst mc)
              (snd (pathLoop env mLogDir (dirUsable env mLogDir)
                             (sort.Strings pathLst) [] w)))
    as (evs2 & He2 & _ & Hcl & _).
  do 2 eexists. exists (evs1 ++ evs2). split; [reflexivity|].
  split; [eapply extends_trans; eassumption|].
  cbn [modelLst installedBy]. rewrite Hf, closedConns_app, Hcl. simpl app.
  rewrite Forall_forall in Hlive, Hids, Hold. apply Forall_forall.
  intros e He Hin. apply in_app_or in Hin. destruct Hin as [Hin|Hin].
  - exact (Hlive e He Hin).
  - apply in_map_iff in Hin. destruct Hin as (o & Ho & Hoin).
    specialize (Hold o Hoin). specialize (Hids e He).
    rewrite Ho in Hold. cbv beta in Hids. lia.
Qed.

Lemma X21_refreshed_catalog_witness :
  exists mc' w' evs,
    RefreshSqlite Mirror.env Demo.installed "mirror" "logs" Demo.world1
    = (None, mc', w') /\
    extends Demo.world1 w' evs /\
    Forall (fun e => ~ In (dbConn e) (closedConns evs)) (modelLst mc').
Proof.
  apply (X21_refreshed_catalog_holds_open_connections Mirror.env Demo.installed
           "mirror" "logs" Demo.world1 Demo.world1
           ["mirror/A/model.sqlite"; "mirror/B/model.sqlite"]).
  - vm_compute. reflexivity.
  - vm_compute. reflexivity.
  - intros fp [<-|[<-|[]]]; vm_compute; reflexivity.
  - vm_compute. repeat constructor.
Defined.

(** ** One connection for each store *)

Lemma NoDup_insert (x : string) (l : list string) :
  ~ In x l -> NoDup l -> NoDup (sort.insert x l).
Proof.
  intros Hx Hnd. induction Hnd as [|y l Hy Hnd IH]; simpl.
  - constructor; [intros [] | constructor].
  - destruct (x <=? y)%string.
    + constructor; [exact Hx | now constructor].
    + constructor.
      * rewrite In_insert. intros [->|H]; [apply Hx; now left | contradiction].
      * apply IH. intros H. apply Hx. now right.
Qed.

Lemma NoDup_Strings (l : list string) : NoDup l -> NoDup (sort.Strings l).
Proof.
  induction 1 as [|x l Hx Hnd IH]; simpl; [constructor|].
  apply NoDup_insert; [|exact IH]. now rewrite In_Strings.
Qed.

Lemma pathLoop_one_conn (env : Env) (mLogDir : string) (il : bool)
      (pathLst : list string) :
  NoDup pathLst ->
  forall mLst w,
  exists new,
    fst (pathLoop env mLogDir il pathLst mLst w) = mLst ++ new /\
    Forall (fun e => In (storeOf e) pathLst) new /\
    forall e1 e2, In e1 new -> In e2 new ->
                  storeOf e1 = storeOf e2 -> dbConn e1 = dbConn e2.
Proof.
  induction 1 as [|fp rest Hfp Hnd IH]; intros mLst w.
  - exists []. simpl. rewrite app_nil_r. repeat split; auto. intros e1 e2 [].
  - rewrite pathLoop_cons.
    destruct (pathBody_run env mLogDir il fp mLst w)
      as (evs1 & new1 & _ & Hf1 & _ & _ & Hd1 & _).
    rewrite Hf1.
    destruct (IH (mLst ++ new1) (snd (pathBody env mLogDir il fp mLst w)))
      as (new2 & Hf2 & Hin2 & Hsame2).
    exists (new1 ++ new2). rewrite Hf2, <- app_assoc.
    rewrite Forall_forall in Hd1, Hin2.
    assert (Hst1 : forall e, In e new1 -> storeOf e = fp).
    { intros e He. unfold storeOf. now rewrite (Hd1 e He). }
    split; [reflexivity | split].
    + apply Forall_forall. intros e He. apply in_app_or in He.
      destruct He as [He|He]; [left; symmetry; now apply Hst1 | right; now apply Hin2].
    + intros e1 e2 H1 H2 Hs.
      apply in_app_or in H1. apply in_app_or in H2.
      destruct H1 as [H1|H1], H2 as [H2|H2].
      * now rewrite (Hd1 e1 H1), (Hd1 e2 H2).
      * exfalso. apply Hfp. rewrite <- (Hst1 e1 H1), Hs. now apply Hin2.
      * exfalso. apply Hfp. rewrite <- (Hst1 e2 H2), <- Hs. now apply Hin2.
      * now apply Hsame2.
Qed.

(** X22: when the listed paths are distinct, the entries read from the
    same store file share one connection: the refreshed catalog holds
    one connection per store, not one per model. *)
Theorem X22_one_connection_per_store (env : Env) (mc : ModelCatalog)
        (mDir mLogDir : string) (w w1 : World) (pathLst : list string) :
  dirUsable env mDir = true ->
  listSqlite env mDir w = (None, pathLst, w1) ->
  NoDup pathLst ->
  exists mc' w',
    RefreshSqlite env mc mDir mLogDir w = (None, mc', w') /\
    forall e1 e2,
      In e1 (modelLst mc') -> In e2 (modelLst mc') ->
      storeOf e1 = storeOf e2 -> dbConn e1 = dbConn e2.
Proof.
  intros Hdir Hwalk Hnd.
  rewrite RefreshSqlite_unfold, Hdir, Hwalk. cbn [negb].
  destruct (pathLoop_one_conn env mLogDir (dirUsable env mLogDir)
              (sort.Strings pathLst) (NoDup_Strings _ Hnd) [] w1)
    as (new & Hf & _ & Hsame).
  do 2 eexists. split; [reflexivity|].
  cbn [modelLst installedBy]. rewrite Hf. exact Hsame.
Qed.

Lemma X22_one_connection_witness :
  exists mc' w',
    RefreshSqlite Mirror.env Demo.empty "mirror" "" Demo.world0 = (None, mc', w') /\
    forall e1 e2,
      In e1 (modelLst mc') -> In e2 (modelLst mc') ->
      storeOf e1 = storeOf e2 -> dbConn e1 = dbConn e2.
Proof.
  apply (X22_one_connection_per_store Mirror.env Demo.empty "mirror" ""
           Demo.world0 Demo.world0
           ["mirror/A/model.sqlite"; "mirror/B/model.sqlite"]).
  - vm_compute. reflexivity.
  - vm_compute. reflexivity.
  - repeat constructor; simpl; intuition discriminate.
Defined.

(** ** A refresh that fails *)

(** X23: a refresh that returns an error leaves the catalog as it was
    and touches no connection: it opens none and closes none, and only
    writes to the log. *)
Theorem X23_failed_refresh_touches_no_connection
        (env : Env) (mc mc' : ModelCatalog) (mDir mLogDir : string)
        (w w' : World) (e : error) :
  RefreshSqlite env mc mDir mLogDir w = (Some e, mc', w') ->
  mc' = mc
  /\ nextConn w' = nextConn w
  /\ exists evs,
       extends w w' evs /\ openedPaths evs = [] /\ closedConns evs = [].
Proof.
  rewrite RefreshSqlite_unfold.
  destruct (dirUsable env mDir); cbn [negb].
  - pose proof (listSqlite_outcome env mDir w) as Ho.
    destruct (filepath.firstFailure mDir (lstat env mDir)) as [[p msg]|].
    + destruct Ho as (pl & ->). intros H. inversion H; subst.
      unfold extends, logged, Log, emit. cbn [snd trace nextConn].
      split; [reflexivity|]. split; [reflexivity|].
      eexists. rewrite <- app_assoc.
      split; [reflexivity|]. split; reflexivity.
    + destruct Ho as (pl & ->). discriminate.
  - intros H. inversion H; subst.
    split; [reflexivity|]. split; [reflexivity|].
    exists []. unfold extends. rewrite app_nil_r. repeat split.
Qed.

Lemma X23_failed_refresh_witness :
  snd (fst (RefreshSqlite Demo.env Demo.installed "locked" "logs" Demo.world1))
  = Demo.installed
  /\ nextConn (snd (RefreshSqlite Demo.env Demo.installed "locked" "logs" Demo.world1))
     = nextConn Demo.world1
  /\ exists evs,
       extends Demo.world1
               (snd (RefreshSqlite Demo.env Demo.installed "locked" "logs" Demo.world1))
               evs
       /\ openedPaths evs = [] /\ closedConns evs = [].
Proof.
  apply (X23_failed_refresh_touches_no_connection Demo.env Demo.installed
           (snd (fst (RefreshSqlite Demo.env Demo.installed "locked" "logs" Demo.world1)))
           "locked" "logs" Demo.world1
           (snd (RefreshSqlite Demo.env Demo.installed "locked" "logs" Demo.world1))
           (errorsNew "Error: fail to list model directory")).
  vm_compute. reflexivity.
Defined.
